(** * file_dir: a declarative file / directory / absent reconciler

    Shallow embedding of [roles/server/library/file_dir.py] together with a
    model of the filesystem calls it consumes ([os], [pathlib.Path],
    [shutil.rmtree]), and the properties of the reconciler proved on it.

    Conventions.
    - A path is the list of its components from the root, what
      [Path.parts] yields after the anchor.  [pathlib] drops ["."] and empty
      components when it parses a path and keeps [".."], so [".."] is the
      one component that is not a name: the system calls resolve it to the
      parent of the directory reached so far ([walk]).  [[]] is the root,
      which always exists, is a directory and is its own parent.
    - The filesystem is a tree: a directory maps names to nodes, a regular
      file is a leaf.  Every function that touches the disk takes the
      filesystem and returns the new one next to its outcome.
    - Symbolic links, permissions, ownership and file contents are outside
      the model, as they are outside the module.  So are the limits of the
      system on names ([NAME_MAX], [PATH_MAX], no NUL byte): the model has
      no error for them, and a statement that a call goes through is made
      for [ordinary] paths, which stay within them.
    - [module.fail_json] does not return: an operation either returns its
      result dictionary or fails with a message, and in both cases the
      filesystem it leaves behind is part of the outcome. *)

From Stdlib Require Import Ascii.
From stdpp Require Import gmap strings list fin_maps.

Open Scope string_scope.
Open Scope list_scope.

(* ===================================================================== *)
(** * The filesystem *)
(* ===================================================================== *)

Definition Path := list string.

Inductive Kind := KFile | KDir.

Inductive Errno := ENOENT | ENOTDIR | EEXIST | EISDIR | EBUSY | ENOTEMPTY.

#[global] Instance Kind_eq_dec : EqDecision Kind.
Proof. solve_decision. Defined.

#[global] Instance Errno_eq_dec : EqDecision Errno.
Proof. solve_decision. Defined.

Local Unset Elimination Schemes.
Inductive node :=
  | File
  | Dir (entries : gmap string node).
Local Set Elimination Schemes.

(** The entries of the root directory. *)
Abbreviation FS := (gmap string node).

Definition kind_of (n : node) : Kind :=
  match n with File => KFile | Dir _ => KDir end.

(** [split_last p] separates the final component of [p] from the path of
    its parent; the root has no final component. *)
Definition split_last (p : Path) : option (Path * string) :=
  match rev p with
  | [] => None
  | s :: rq => Some (rev rq, s)
  end.

(** The path one level up; the root stays where it is. *)
Definition dirname (p : Path) : Path :=
  match split_last p with
  | None => []
  | Some (q, _) => q
  end.

(** ** Nodes by address

    The address of a node is the list of names that leads to it from the
    root.  [lookup_path es a] follows the address [a] in the directory whose
    entries are [es], name by name: a missing name is [ENOENT], going
    through a regular file is [ENOTDIR].  Every component is taken as a
    name here; resolving [".."] is the business of [walk] below, which only
    ever hands addresses without [".."] to these functions. *)
Fixpoint lookup_path (es : gmap string node) (p : Path) : Errno + node :=
  match p with
  | [] => inr (Dir es)
  | s :: q =>
      match es !! s with
      | None => inl ENOENT
      | Some File => match q with [] => inr File | _ :: _ => inl ENOTDIR end
      | Some (Dir es') => lookup_path es' q
      end
  end.

(** The entries of the directory at [p]. *)
Definition dir_at (es : gmap string node) (p : Path) : Errno + gmap string node :=
  match lookup_path es p with
  | inl e => inl e
  | inr File => inl ENOTDIR
  | inr (Dir d) => inr d
  end.

(** [modify_dir es q f] rewrites the entries of the directory at [q] with
    [f] and leaves everything else as it is. *)
Fixpoint modify_dir (es : gmap string node) (q : Path)
    (f : gmap string node → gmap string node) : gmap string node :=
  match q with
  | [] => f es
  | s :: q' =>
      match es !! s with
      | Some (Dir es') => <[s := Dir (modify_dir es' q' f)]> es
      | _ => es
      end
  end.

(** What the system calls do once the directory of the last component is
    found: [p] is the address of that directory followed by the name. *)
Module Tree.

Definition stat (fs : FS) (p : Path) : Errno + Kind :=
  match lookup_path fs p with
  | inl e => inl e
  | inr n => inr (kind_of n)
  end.

(** A new, empty directory under a free name. *)
Definition mkdir (fs : FS) (p : Path) : Errno + FS :=
  match split_last p with
  | None => inl EEXIST
  | Some (q, s) =>
      match dir_at fs q with
      | inl e => inl e
      | inr d =>
          match d !! s with
          | Some _ => inl EEXIST
          | None => inr (modify_dir fs q (insert s (Dir ∅)))
          end
      end
  end.

(** A new, empty regular file under a free name; an existing regular file
    is opened as it is. *)
Definition open_creat (fs : FS) (p : Path) : Errno + FS :=
  match split_last p with
  | None => inl EISDIR
  | Some (q, s) =>
      match dir_at fs q with
      | inl e => inl e
      | inr d =>
          match d !! s with
          | Some (Dir _) => inl EISDIR
          | Some File => inr fs
          | None => inr (modify_dir fs q (insert s File))
          end
      end
  end.

(** The name of a regular file goes. *)
Definition unlink (fs : FS) (p : Path) : Errno + FS :=
  match split_last p with
  | None => inl EISDIR
  | Some (q, s) =>
      match dir_at fs q with
      | inl e => inl e
      | inr d =>
          match d !! s with
          | Some (Dir _) => inl EISDIR
          | Some File => inr (modify_dir fs q (delete s))
          | None => inl ENOENT
          end
      end
  end.

(** The name of an empty directory goes. *)
Definition rmdir (fs : FS) (p : Path) : Errno + FS :=
  match split_last p with
  | None => inl EBUSY
  | Some (q, s) =>
      match dir_at fs q with
      | inl e => inl e
      | inr d =>
          match d !! s with
          | Some (Dir es) =>
              if decide (size es = 0) then inr (modify_dir fs q (delete s))
              else inl ENOTEMPTY
          | Some File => inl ENOTDIR
          | None => inl ENOENT
          end
      end
  end.

End Tree.

(** ** Path resolution

    [walk fs c p] resolves the components [p] starting in the directory at
    the address [c], the way the kernel does: [".."] needs a directory to
    be looked up in and leads to its parent; a name has to be there, and to
    be a directory when more components follow (the next step fails with
    [ENOTDIR] in a regular file).  The result is the address of the node
    reached. *)
Fixpoint walk (fs : FS) (c : Path) (p : Path) : Errno + Path :=
  match p with
  | [] => inr c
  | x :: rest =>
      if decide (x = "..") then
        match Tree.stat fs c with
        | inr KDir => walk fs (dirname c) rest
        | inr KFile => inl ENOTDIR
        | inl e => inl e
        end
      else
        match Tree.stat fs (c ++ [x]) with
        | inr _ => walk fs (c ++ [x]) rest
        | inl e => inl e
        end
  end.

(** ** System calls *)
Module Os.

Definition resolve (fs : FS) (p : Path) : Errno + Path := walk fs [] p.

(** Resolution of all but the last component: it has to end in a
    directory. *)
Definition resolve_dir (fs : FS) (q : Path) : Errno + Path :=
  match resolve fs q with
  | inl e => inl e
  | inr c =>
      match Tree.stat fs c with
      | inr KDir => inr c
      | inr KFile => inl ENOTDIR
      | inl e => inl e
      end
  end.

Definition stat (fs : FS) (p : Path) : Errno + Kind :=
  match resolve fs p with
  | inl e => inl e
  | inr c => Tree.stat fs c
  end.

(** [os.mkdir]: one level only, the parent has to be a directory and the
    name has to be free; [".."] is always there. *)
Definition mkdir (fs : FS) (p : Path) : Errno + FS :=
  match split_last p with
  | None => inl EEXIST
  | Some (q, x) =>
      match resolve_dir fs q with
      | inl e => inl e
      | inr c => if decide (x = "..") then inl EEXIST else Tree.mkdir fs (c ++ [x])
      end
  end.

(** [os.utime(p, None)]: succeeds on whatever exists at [p]; timestamps
    are not part of the model. *)
Definition utime (fs : FS) (p : Path) : Errno + unit :=
  match stat fs p with
  | inl e => inl e
  | inr _ => inr tt
  end.

(** [os.open(p, O_CREAT | O_WRONLY)] followed by [os.close]: creates an
    empty regular file when the name is free. *)
Definition open_creat (fs : FS) (p : Path) : Errno + FS :=
  match split_last p with
  | None => inl EISDIR
  | Some (q, x) =>
      match resolve_dir fs q with
      | inl e => inl e
      | inr c => if decide (x = "..") then inl EISDIR else Tree.open_creat fs (c ++ [x])
      end
  end.

(** [os.unlink] *)
Definition unlink (fs : FS) (p : Path) : Errno + FS :=
  match split_last p with
  | None => inl EISDIR
  | Some (q, x) =>
      match resolve_dir fs q with
      | inl e => inl e
      | inr c => if decide (x = "..") then inl EISDIR else Tree.unlink fs (c ++ [x])
      end
  end.

(** [os.rmdir]: the root is busy, and [".."] names a directory that is not
    empty. *)
Definition rmdir (fs : FS) (p : Path) : Errno + FS :=
  match split_last p with
  | None => inl EBUSY
  | Some (q, x) =>
      match resolve_dir fs q with
      | inl e => inl e
      | inr c => if decide (x = "..") then inl ENOTEMPTY else Tree.rmdir fs (c ++ [x])
      end
  end.

End Os.

(** ** [pathlib.Path] *)
Module Pathlib.

(** [Path.parent]; the root is its own parent. *)
Definition parent (p : Path) : Path :=
  match split_last p with
  | None => []
  | Some (q, _) => q
  end.

(** [Path.exists] and [Path.is_dir] turn the errors of [os.stat] that mean
    "nothing there" into [False]: [ENOENT] and [ENOTDIR], the only errors
    [Os.stat] has.  Any other error [Path.exists] raises again, as it does
    [ENAMETOOLONG] for a name over [NAME_MAX]; the model has no such error,
    so what it says about a path that is not [ordinary] is not what the
    library does. *)
Definition exists_ (fs : FS) (p : Path) : bool :=
  match Os.stat fs p with
  | inr _ => true
  | inl _ => false
  end.

Definition is_dir (fs : FS) (p : Path) : bool :=
  match Os.stat fs p with
  | inr KDir => true
  | _ => false
  end.

(** The body of [Path.mkdir] for [parents=False]:
<<
    try: os.mkdir(self, mode)
    except FileNotFoundError: raise
    except OSError:
        if not exist_ok or not self.is_dir(): raise
>> *)
Definition mkdir_flat (self : Path) (exist_ok : bool) (fs : FS)
    : (Errno + unit) * FS :=
  match Os.mkdir fs self with
  | inr fs' => (inr tt, fs')
  | inl ENOENT => (inl ENOENT, fs)
  | inl e => if exist_ok && is_dir fs self then (inr tt, fs) else (inl e, fs)
  end.

(** [Path.mkdir].  On [FileNotFoundError] with [parents=True] it first
    calls [self.parent.mkdir(parents=True, exist_ok=True)] and then
    [self.mkdir(mode, parents=False, exist_ok=exist_ok)].  The recursion
    climbs towards the root, so it is written over the reversed component
    list [rself], whose tail is the reversed parent. *)
Fixpoint mkdir_rev (rself : list string) (parents exist_ok : bool) (fs : FS)
    : (Errno + unit) * FS :=
  let self := rev rself in
  match Os.mkdir fs self with
  | inr fs' => (inr tt, fs')
  | inl ENOENT =>
      match rself with
      | [] => (inl ENOENT, fs)
      | _ :: rparent =>
          if parents then
            match mkdir_rev rparent true true fs with
            | (inr _, fs1) => mkdir_flat self exist_ok fs1
            | (inl e, fs1) => (inl e, fs1)
            end
          else (inl ENOENT, fs)
      end
  | inl e => if exist_ok && is_dir fs self then (inr tt, fs) else (inl e, fs)
  end.

Definition mkdir (self : Path) (parents exist_ok : bool) (fs : FS)
    : (Errno + unit) * FS :=
  mkdir_rev (rev self) parents exist_ok fs.

(** [Path.touch()] with its default [exist_ok=True]: [os.utime] first,
    and only when that fails [os.open] with [O_CREAT]. *)
Definition touch (self : Path) (fs : FS) : (Errno + unit) * FS :=
  match Os.utime fs self with
  | inr _ => (inr tt, fs)
  | inl _ =>
      match Os.open_creat fs self with
      | inr fs' => (inr tt, fs')
      | inl e => (inl e, fs)
      end
  end.

(** [Path.unlink(missing_ok)]: only [FileNotFoundError] is forgiven. *)
Definition unlink (self : Path) (missing_ok : bool) (fs : FS)
    : (Errno + unit) * FS :=
  match Os.unlink fs self with
  | inr fs' => (inr tt, fs')
  | inl ENOENT => if missing_ok then (inr tt, fs) else (inl ENOENT, fs)
  | inl e => (inl e, fs)
  end.

(** [Path.iterdir]: the names in a directory; nothing to list where there
    is no directory. *)
Definition iterdir (fs : FS) (self : Path) : option (list string) :=
  match Os.resolve_dir fs self with
  | inl _ => None
  | inr c =>
      match dir_at fs c with
      | inl _ => None
      | inr d => Some (map_to_list d).*1
      end
  end.

End Pathlib.

(** ** [shutil] *)
Module Shutil.

(** [shutil.rmtree(path, ignore_errors=False)]: the first error is raised.
    A path that does not resolve fails in [os.lstat], a regular file fails
    when it is listed.  In a directory everything is removed, through the
    descriptor of the directory itself, and then comes [os.rmdir(path)],
    which resolves [path] once more: it fails on the root, and on a path
    that no longer leads to the directory just emptied. *)
Definition rmtree (path : Path) (fs : FS) : (Errno + unit) * FS :=
  match Os.resolve fs path with
  | inl e => (inl e, fs)
  | inr c =>
      match Tree.stat fs c with
      | inl e => (inl e, fs)
      | inr KFile => (inl ENOTDIR, fs)
      | inr KDir =>
          let fs1 := modify_dir fs c (λ _, ∅) in
          match Os.rmdir fs1 path with
          | inr fs2 => (inr tt, fs2)
          | inl e => (inl e, fs1)
          end
      end
  end.

End Shutil.

(* ===================================================================== *)
(** * The module: [file_dir.py] *)
(* ===================================================================== *)

(** [class State(enum.Enum)] *)
Inductive State := FILE | DIRECTORY | ABSENT.

#[global] Instance State_eq_dec : EqDecision State.
Proof. solve_decision. Defined.

Definition value (s : State) : string :=
  match s with
  | FILE => "file"
  | DIRECTORY => "directory"
  | ABSENT => "absent"
  end.

Definition to_choices : list string := value <$> [FILE; DIRECTORY; ABSENT].

(** ** Dictionaries *)

(** What the two sides of a diff hold: the path and, optionally, the value
    of a state. *)
Inductive atom := APath (p : Path) | AStr (s : string).

(** [diff] has exactly the keys ["before"] and ["after"]; each side is a
    dictionary. *)
Record Diff := mkDiff { before : gmap string atom; after : gmap string atom }.

(** The values of a result dictionary. *)
Inductive pyval := VBool (b : bool) | VPath (p : Path) | VDiff (d : Diff).

Abbreviation Result := (gmap string pyval).

(** ** The module runner *)

(** [module.params], as validated against [argument_spec]; [state] stays
    the string it arrives as. *)
Record Params := mkParams { state : string; path : Path; nested : bool }.

Record AnsibleModule := mkModule { params : Params; check_mode : bool }.

(** The messages handed to [module.fail_json]. *)
Inductive Operation := CreateFile | CreateDirectory | DeleteDirectory | DeleteFile.

Inductive Cause := SystemError (e : Errno) | PathIsDirectory.

Record Msg := mkMsg { msg_op : Operation; msg_path : Path; msg_cause : Cause }.

(** A call either returns its result or ends in [fail_json]. *)
Inductive outcome := Returned (result : Result) | Failed (msg : Msg).

Definition fail_json (op : Operation) (p : Path) (c : Cause) : outcome :=
  Failed (mkMsg op p c).

(** ** State inspection and diff *)

Definition get_current_state (fs : FS) (path : Path) : State :=
  if Pathlib.exists_ fs path then
    if Pathlib.is_dir fs path then DIRECTORY else FILE
  else ABSENT.

Definition init_diff (path : Path) (next_state current_state : State) : Diff :=
  let diff := mkDiff {["path" := APath path]} {["path" := APath path]} in
  if decide (current_state ≠ next_state) then
    mkDiff (<["state" := AStr (value current_state)]> (before diff))
           (<["state" := AStr (value next_state)]> (after diff))
  else diff.

Definition get_check_mode_result (diff : Diff) (path : Path) : Result :=
  {["changed" := VBool true; "diff" := VDiff diff; "path" := VPath path]}.

(** The tail shared by the three operations:
<<
    result["changed"] = changed
    result["diff"] = diff
    return result
>> *)
Definition finish (result : Result) (changed : bool) (diff : Diff) : Result :=
  <["diff" := VDiff diff]> (<["changed" := VBool changed]> result).

(** ** The three operations *)

Definition ensure_file (path : Path) (nested : bool) (module : AnsibleModule)
    (fs : FS) : outcome * FS :=
  let file := path in
  let current_state := get_current_state fs file in
  let result : Result := {["path" := VPath path]} in
  let diff := init_diff path FILE current_state in
  match current_state with
  | ABSENT =>
      if check_mode module then (Returned (get_check_mode_result diff path), fs)
      else
        match Pathlib.mkdir (Pathlib.parent file) nested true fs with
        | (inl e, fs1) => (fail_json CreateFile path (SystemError e), fs1)
        | (inr _, fs1) =>
            match Pathlib.touch file fs1 with
            | (inl e, fs2) => (fail_json CreateFile path (SystemError e), fs2)
            | (inr _, fs2) => (Returned (finish result true diff), fs2)
            end
        end
  | DIRECTORY => (fail_json CreateFile path PathIsDirectory, fs)
  | FILE => (Returned (finish result false diff), fs)
  end.

Definition ensure_directory (path : Path) (nested : bool) (module : AnsibleModule)
    (fs : FS) : outcome * FS :=
  let dir := path in
  let current_state := get_current_state fs dir in
  let result : Result := {["path" := VPath path]} in
  let diff := init_diff path DIRECTORY current_state in
  match current_state with
  | ABSENT =>
      if check_mode module then (Returned (get_check_mode_result diff path), fs)
      else
        match Pathlib.mkdir dir nested true fs with
        | (inl e, fs1) => (fail_json CreateDirectory path (SystemError e), fs1)
        | (inr _, fs1) => (Returned (finish result true diff), fs1)
        end
  | _ => (Returned (finish result false diff), fs)
  end.

Definition ensure_absent (path : Path) (module : AnsibleModule)
    (fs : FS) : outcome * FS :=
  let absent := path in
  let current_state := get_current_state fs absent in
  let result : Result := {["path" := VPath path]} in
  let diff := init_diff path ABSENT current_state in
  match current_state with
  | DIRECTORY =>
      if check_mode module then (Returned (get_check_mode_result diff path), fs)
      else
        match Shutil.rmtree path fs with
        | (inl e, fs1) => (fail_json DeleteDirectory path (SystemError e), fs1)
        | (inr _, fs1) => (Returned (finish result true diff), fs1)
        end
  | FILE =>
      if check_mode module then (Returned (get_check_mode_result diff path), fs)
      else
        match Pathlib.unlink absent true fs with
        | (inl e, fs1) => (fail_json DeleteFile path (SystemError e), fs1)
        | (inr _, fs1) => (Returned (finish result true diff), fs1)
        end
  | ABSENT => (Returned (finish result false diff), fs)
  end.

(** ** The dispatcher *)

Definition run_proper_handler (module : AnsibleModule) (fs : FS) : outcome * FS :=
  let result : Result := {["changed" := VBool false]} in
  let params := params module in
  let state := state params in
  let path := path params in
  let nested := nested params in
  if decide (state = value FILE) then ensure_file path nested module fs
  else if decide (state = value DIRECTORY) then ensure_directory path nested module fs
  else if decide (state = value ABSENT) then ensure_absent path module fs
  else (Returned result, fs).

(** Reading a result. *)
Definition changed_of (o : outcome) : option bool :=
  match o with
  | Returned r => match r !! "changed" with Some (VBool b) => Some b | _ => None end
  | Failed _ => None
  end.

Definition diff_of (o : outcome) : option Diff :=
  match o with
  | Returned r => match r !! "diff" with Some (VDiff d) => Some d | _ => None end
  | Failed _ => None
  end.

(** ** Sample filesystems *)

(** An empty disk, as [tmp_path] is at the start of each test. *)
Definition fs_empty : FS := ∅.

(** [/etc/motd] is a regular file, [/srv/www] an empty directory. *)
Definition fs_sample : FS :=
  {[ "etc" := Dir {[ "motd" := File ]}; "srv" := Dir {[ "www" := Dir ∅ ]} ]}.

Definition normal (p : Params) : AnsibleModule := mkModule p false.
Definition dry_run (p : Params) : AnsibleModule := mkModule p true.

(** ** The test harness of [tests/test_file_dir.py] *)

(** [FakeModule(path=..., state=..., nested=...)]; [check_mode] defaults to
    false, and its [fail_json] raises. *)
Definition FakeModule (path : Path) (state : string) (nested : bool) : AnsibleModule :=
  mkModule (mkParams state path nested) false.

(** [tmp_path]: a fresh, empty directory. *)
Definition tmp_path : Path := ["tmp"].
Definition fs_tmp : FS := {[ "tmp" := Dir ∅ ]}.

(** The filesystem after [run_proper_handler(module)]. *)
Definition after_run (module : AnsibleModule) (fs : FS) : FS :=
  snd (run_proper_handler module fs).

(** [with pytest.raises(FailException): run_proper_handler(module)] *)
Definition raises (module : AnsibleModule) (fs : FS) : bool :=
  match fst (run_proper_handler module fs) with
  | Failed _ => true
  | Returned _ => false
  end.

(** [len(list(p.iterdir()))] *)
Definition count_entries (fs : FS) (p : Path) : option nat :=
  length <$> Pathlib.iterdir fs p.

(** ** Ordinary paths *)

Definition NAME_MAX : nat := 255.
Definition PATH_MAX : nat := 4096.

(** One component that is a name: not empty, not ["."] or [".."], no
    separator and no NUL byte in it, and no longer than [NAME_MAX]. *)
Definition ordinary_name (x : string) : bool :=
  bool_decide (x ≠ "" ∧ x ≠ "." ∧ x ≠ "..")
  && bool_decide (String.length x ≤ NAME_MAX)%nat
  && forallb (λ a, bool_decide (a ≠ "/"%char ∧ a ≠ Ascii.zero))
       (String.list_ascii_of_string x).

(** A path made of names only, short enough to be handed to a system
    call. *)
Definition ordinary (p : Path) : bool :=
  forallb ordinary_name p
  && bool_decide (sum_list ((λ x, S (String.length x)) <$> p) < PATH_MAX)%nat.

(** ** Comparing filesystems *)

(** [grows fs fs']: whatever is at an address in [fs] is at that address in
    [fs'], with the same kind. *)
Definition grows (fs fs' : FS) : Prop :=
  ∀ r k, Tree.stat fs r = inr k → Tree.stat fs' r = inr k.

(* ===================================================================== *)
(** * Nodes and their addresses *)
(* ===================================================================== *)

Section tree.
Implicit Types (p q r : Path) (s t : string) (fs : FS) (es d : gmap string node).
Implicit Types (f g : gmap string node → gmap string node).

Lemma split_last_snoc q s : split_last (q ++ [s]) = Some (q, s).
Proof. unfold split_last. by rewrite rev_unit, rev_involutive. Qed.

Lemma split_last_Some p q s : split_last p = Some (q, s) → p = q ++ [s].
Proof.
  unfold split_last. destruct (rev p) as [|t rq] eqn:E; [done|].
  intros [= <- <-]. rewrite <- (rev_involutive p), E. done.
Qed.

Lemma split_last_None p : split_last p = None → p = [].
Proof.
  unfold split_last. destruct (rev p) as [|t rq] eqn:E; [|done].
  intros _. by rewrite <- (rev_involutive p), E.
Qed.

Lemma parent_snoc q s : Pathlib.parent (q ++ [s]) = q.
Proof. unfold Pathlib.parent. by rewrite split_last_snoc. Qed.

(** Either a path is the root or it is a parent followed by a name. *)
Lemma path_cases p : p = [] ∨ ∃ q s, p = q ++ [s].
Proof.
  destruct (split_last p) as [[q s]|] eqn:E.
  - right. exists q, s. by apply split_last_Some.
  - left. by apply split_last_None.
Qed.

Lemma lookup_path_errno es p e :
  lookup_path es p = inl e → e = ENOENT ∨ e = ENOTDIR.
Proof.
  revert es. induction p as [|s q IH]; intros es; simpl; [done|].
  destruct (es !! s) as [[|es']|]; [destruct q| |]; naive_solver.
Qed.

(** Resolution of a concatenation goes through the first part. *)
Lemma lookup_path_app es q r :
  lookup_path es (q ++ r) =
    match lookup_path es q with
    | inl e => inl e
    | inr File => match r with [] => inr File | _ :: _ => inl ENOTDIR end
    | inr (Dir d) => lookup_path d r
    end.
Proof.
  revert es. induction q as [|s q IH]; intros es; simpl; [done|].
  destruct (es !! s) as [[|es']|]; [|by apply IH|done].
  destruct q; simpl; [done|]. by destruct r.
Qed.

Lemma tree_stat_errno (fs : FS) p e : Tree.stat fs p = inl e → e = ENOENT ∨ e = ENOTDIR.
Proof.
  unfold Tree.stat. destruct (lookup_path fs p) eqn:E; [|done].
  intros [= <-]. by eapply lookup_path_errno.
Qed.

(** What exists has a directory at each proper ancestor. *)
Lemma tree_stat_ancestor (fs : FS) q r k :
  r ≠ [] → Tree.stat fs (q ++ r) = inr k → Tree.stat fs q = inr KDir.
Proof.
  unfold Tree.stat. rewrite lookup_path_app.
  destruct (lookup_path fs q) as [e|[|d]]; [done| |done].
  by destruct r.
Qed.

Lemma tree_dir_at_stat (fs : FS) q :
  Tree.stat fs q = inr KDir ↔ ∃ d, dir_at fs q = inr d.
Proof.
  unfold Tree.stat, dir_at.
  destruct (lookup_path fs q) as [e|[|d]]; simpl;
    (split; [intros; simplify_eq; eauto | intros [? ?]; by simplify_eq]).
Qed.

(** [stat] of a child in terms of the entries of its parent. *)
Lemma tree_stat_child (fs : FS) q s d :
  dir_at fs q = inr d →
  Tree.stat fs (q ++ [s]) =
    match d !! s with Some n => inr (kind_of n) | None => inl ENOENT end.
Proof.
  unfold dir_at, Tree.stat. rewrite lookup_path_app.
  destruct (lookup_path fs q) as [e|[|d']]; [done..|].
  intros [= ->]. simpl. by destruct (d !! s) as [[|?]|].
Qed.

Lemma tree_stat_child_no_parent (fs : FS) q s e :
  dir_at fs q = inl e → Tree.stat fs (q ++ [s]) = inl e.
Proof.
  unfold dir_at, Tree.stat. rewrite lookup_path_app.
  destruct (lookup_path fs q) as [e'|[|d']]; intros; by simplify_eq/=.
Qed.

(** [ENOTDIR] means that a regular file sits on the way. *)
Lemma tree_stat_ENOTDIR (fs : FS) p :
  Tree.stat fs p = inl ENOTDIR →
  ∃ q r, p = q ++ r ∧ r ≠ [] ∧ Tree.stat fs q = inr KFile.
Proof.
  unfold Tree.stat. revert fs. induction p as [|s p IH]; intros fs; simpl; [done|].
  destruct (fs !! s) as [[|es']|] eqn:E.
  - destruct p as [|t p]; [done|]. intros _.
    exists [s], (t :: p). simpl. by rewrite E.
  - intros H. destruct (IH es' H) as (q & r & -> & Hr & Hq).
    exists (s :: q), r. simpl. by rewrite E.
  - done.
Qed.

Lemma tree_stat_cons (fs : FS) s r :
  Tree.stat fs (s :: r) =
    match fs !! s with
    | None => inl ENOENT
    | Some File => match r with [] => inr KFile | _ :: _ => inl ENOTDIR end
    | Some (Dir es') => Tree.stat es' r
    end.
Proof.
  unfold Tree.stat. simpl. destruct (fs !! s) as [[|es']|]; [|done..].
  by destruct r.
Qed.

Lemma dir_at_cons es s q d :
  dir_at es (s :: q) = inr d →
  ∃ es', es !! s = Some (Dir es') ∧ dir_at es' q = inr d.
Proof.
  unfold dir_at. simpl. destruct (es !! s) as [[|es']|]; [by destruct q| |done].
  eauto.
Qed.

(** Below the modified directory, resolution continues in its new entries. *)
Lemma lookup_modify_dir_under es q f d r :
  dir_at es q = inr d →
  lookup_path (modify_dir es q f) (q ++ r) = lookup_path (f d) r.
Proof.
  revert es. induction q as [|s q IH]; intros es Hd.
  - unfold dir_at in Hd. simpl in *. by simplify_eq.
  - destruct (dir_at_cons _ _ _ _ Hd) as (es' & Hs & Hd').
    simpl. rewrite Hs, lookup_insert_eq. by apply IH.
Qed.

Lemma dir_at_modify_dir es q f d :
  dir_at es q = inr d → dir_at (modify_dir es q f) q = inr (f d).
Proof.
  intros Hd. unfold dir_at.
  rewrite <- (app_nil_r q) at 2.
  by rewrite (lookup_modify_dir_under _ _ _ _ _ Hd).
Qed.

(** A change that concerns the single name [s] of the directory [q] is
    invisible from every path that does not go through [q ++ [s]]. *)
Lemma tree_stat_modify_dir_off es q f d s r :
  dir_at es q = inr d →
  (∀ x, x ≠ s → f d !! x = d !! x) →
  ¬ (q ++ [s]) `prefix_of` r →
  Tree.stat (modify_dir es q f) r = Tree.stat es r.
Proof.
  revert es r. induction q as [|s0 q IH]; intros es r Hd Hf Hr.
  - unfold dir_at in Hd. simpl in *. simplify_eq.
    destruct r as [|t r]; [done|].
    rewrite !tree_stat_cons, Hf; [done|].
    intros ->. apply Hr. by apply prefix_cons, prefix_nil.
  - destruct (dir_at_cons _ _ _ _ Hd) as (es' & Hs & Hd').
    simpl. rewrite Hs.
    destruct r as [|t r]; [done|].
    rewrite !tree_stat_cons.
    destruct (decide (t = s0)) as [->|Hne].
    + rewrite lookup_insert_eq, Hs. apply (IH _ _ Hd' Hf).
      intros Hp. apply Hr. simpl. by apply prefix_cons.
    + by rewrite lookup_insert_ne.
Qed.

Lemma tree_stat_modify_dir_child es q f d s :
  dir_at es q = inr d →
  Tree.stat (modify_dir es q f) (q ++ [s]) =
    match f d !! s with Some n => inr (kind_of n) | None => inl ENOENT end.
Proof. intros Hd. by apply tree_stat_child, dir_at_modify_dir. Qed.

(** A successful call unfolds into its parent directory and name. *)
Lemma tree_mkdir_inv fs p fs' :
  Tree.mkdir fs p = inr fs' →
  ∃ q s d, p = q ++ [s] ∧ dir_at fs q = inr d ∧ d !! s = None ∧
           fs' = modify_dir fs q (insert s (Dir ∅)).
Proof.
  unfold Tree.mkdir. destruct (split_last p) as [[q s]|] eqn:E; [|done].
  apply split_last_Some in E as ->.
  destruct (dir_at fs q) as [e|d] eqn:Hd; [done|].
  destruct (d !! s) eqn:Hs; [done|]. intros [= <-]. by exists q, s, d.
Qed.

(** [os.mkdir] adds one empty directory and nothing else changes. *)
Lemma tree_mkdir_stat fs p fs' r :
  Tree.mkdir fs p = inr fs' →
  Tree.stat fs' r = if decide (r = p) then inr KDir else Tree.stat fs r.
Proof.
  intros (q & s & d & -> & Hd & Hs & ->)%tree_mkdir_inv.
  destruct (decide ((q ++ [s]) `prefix_of` r)) as [[r' ->]|Hoff].
  - rewrite <- (assoc_L (++)). simpl.
    unfold Tree.stat at 1. rewrite (lookup_modify_dir_under _ _ _ _ _ Hd).
    simpl. rewrite lookup_insert_eq.
    destruct r' as [|x r'].
    + by rewrite decide_True.
    + rewrite decide_False.
      2:{ intros H%(f_equal length). rewrite !length_app in H. simpl in H. lia. }
      unfold Tree.stat. rewrite lookup_path_app.
      unfold dir_at in Hd.
      destruct (lookup_path fs q) as [e|[|d']]; simplify_eq.
      simpl. by rewrite Hs, lookup_empty.
  - rewrite decide_False by (by intros ->).
    apply (tree_stat_modify_dir_off _ _ _ _ s _ Hd); [|done].
    intros x Hx. by rewrite lookup_insert_ne.
Qed.

Lemma tree_mkdir_fails_without_parent fs q s e :
  dir_at fs q = inl e → Tree.mkdir fs (q ++ [s]) = inl e.
Proof. intros Hd. unfold Tree.mkdir. by rewrite split_last_snoc, Hd. Qed.

Lemma tree_mkdir_succeeds fs q s :
  Tree.stat fs q = inr KDir → Tree.stat fs (q ++ [s]) = inl ENOENT →
  ∃ fs', Tree.mkdir fs (q ++ [s]) = inr fs'.
Proof.
  intros [d Hd]%tree_dir_at_stat Hs. rewrite (tree_stat_child _ _ _ _ Hd) in Hs.
  unfold Tree.mkdir. rewrite split_last_snoc, Hd.
  destruct (d !! s); [done|]. eauto.
Qed.

(** [os.open] with [O_CREAT] leaves a regular file at [p]; paths that do
    not go through [p] are as before. *)
Lemma tree_open_creat_stat fs p fs' :
  Tree.open_creat fs p = inr fs' →
  Tree.stat fs' p = inr KFile ∧
  ∀ r, ¬ p `prefix_of` r → Tree.stat fs' r = Tree.stat fs r.
Proof.
  unfold Tree.open_creat. destruct (split_last p) as [[q s]|] eqn:E; [|done].
  apply split_last_Some in E as ->.
  destruct (dir_at fs q) as [e|d] eqn:Hd; [done|].
  destruct (d !! s) as [[|?]|] eqn:Hs; [|done|]; intros [= <-].
  - split; [|done]. by rewrite (tree_stat_child _ _ _ _ Hd), Hs.
  - split.
    + by rewrite (tree_stat_modify_dir_child _ _ _ _ _ Hd), lookup_insert_eq.
    + intros r Hr. apply (tree_stat_modify_dir_off _ _ _ _ s _ Hd); [|done].
      intros x Hx. by rewrite lookup_insert_ne.
Qed.

Lemma tree_open_creat_succeeds fs q s :
  Tree.stat fs q = inr KDir → Tree.stat fs (q ++ [s]) = inl ENOENT →
  ∃ fs', Tree.open_creat fs (q ++ [s]) = inr fs'.
Proof.
  intros [d Hd]%tree_dir_at_stat Hs. rewrite (tree_stat_child _ _ _ _ Hd) in Hs.
  unfold Tree.open_creat. rewrite split_last_snoc, Hd.
  destruct (d !! s); [done|]. eauto.
Qed.

(** [os.unlink] removes the name; paths that do not go through [p] are as
    before. *)
Lemma tree_unlink_stat fs p fs' :
  Tree.unlink fs p = inr fs' →
  Tree.stat fs' p = inl ENOENT ∧
  ∀ r, ¬ p `prefix_of` r → Tree.stat fs' r = Tree.stat fs r.
Proof.
  unfold Tree.unlink. destruct (split_last p) as [[q s]|] eqn:E; [|done].
  apply split_last_Some in E as ->.
  destruct (dir_at fs q) as [e|d] eqn:Hd; [done|].
  destruct (d !! s) as [[|?]|] eqn:Hs; [|done..]; intros [= <-].
  split.
  - by rewrite (tree_stat_modify_dir_child _ _ _ _ _ Hd), lookup_delete_eq.
  - intros r Hr. apply (tree_stat_modify_dir_off _ _ _ _ s _ Hd); [|done].
    intros x Hx. by rewrite lookup_delete_ne.
Qed.

Lemma tree_unlink_file_succeeds fs p :
  Tree.stat fs p = inr KFile → ∃ fs', Tree.unlink fs p = inr fs'.
Proof.
  destruct (path_cases p) as [->|(q & s & ->)]; [done|].
  intros Hp. assert (Hq : Tree.stat fs q = inr KDir) by (by apply (tree_stat_ancestor _ _ [s] KFile)).
  apply tree_dir_at_stat in Hq as [d Hd]. rewrite (tree_stat_child _ _ _ _ Hd) in Hp.
  unfold Tree.unlink. rewrite split_last_snoc, Hd.
  destruct (d !! s) as [[|?]|]; simplify_eq/=. eauto.
Qed.

(** [os.mkdir] only works on a name that is free. *)
Lemma tree_mkdir_was_absent fs p fs' :
  Tree.mkdir fs p = inr fs' → Tree.stat fs p = inl ENOENT.
Proof.
  intros (q & s & d & -> & Hd & Hs & _)%tree_mkdir_inv.
  by rewrite (tree_stat_child _ _ _ _ Hd), Hs.
Qed.

(** On what exists already [os.mkdir] says [EEXIST]. *)
Lemma tree_mkdir_EEXIST fs p k : Tree.stat fs p = inr k → Tree.mkdir fs p = inl EEXIST.
Proof.
  intros Hp. destruct (path_cases p) as [->|(q & s & ->)]; [done|].
  assert (Hq : Tree.stat fs q = inr KDir) by (by apply (tree_stat_ancestor _ _ [s] k)).
  apply tree_dir_at_stat in Hq as [d Hd]. rewrite (tree_stat_child _ _ _ _ Hd) in Hp.
  unfold Tree.mkdir. rewrite split_last_snoc, Hd. by destruct (d !! s).
Qed.

(** Where path resolution fails on the way, [os.mkdir] fails the same way,
    except that a missing last name under a directory is what it wants. *)
Lemma tree_mkdir_ENOTDIR fs p : Tree.stat fs p = inl ENOTDIR → Tree.mkdir fs p = inl ENOTDIR.
Proof.
  intros Hp. destruct (path_cases p) as [->|(q & s & ->)]; [done|].
  destruct (dir_at fs q) as [e|d] eqn:Hd.
  - rewrite (tree_stat_child_no_parent _ _ _ _ Hd) in Hp. simplify_eq.
    by apply tree_mkdir_fails_without_parent.
  - rewrite (tree_stat_child _ _ _ _ Hd) in Hp. by destruct (d !! s).
Qed.

(** When [os.mkdir] reports [ENOENT] it is the parent that is missing. *)
Lemma tree_mkdir_ENOENT fs q s :
  Tree.mkdir fs (q ++ [s]) = inl ENOENT →
  Tree.stat fs q = inl ENOENT ∧ Tree.stat fs (q ++ [s]) = inl ENOENT.
Proof.
  unfold Tree.mkdir. rewrite split_last_snoc.
  destruct (dir_at fs q) as [e|d] eqn:Hd; [|by destruct (d !! s)].
  intros [= ->]. split; [|by apply tree_stat_child_no_parent].
  unfold dir_at, Tree.stat in *.
  by destruct (lookup_path fs q) as [?|[|?]]; simplify_eq.
Qed.

(** On a name that is free, [os.mkdir] either works or misses the parent. *)
Lemma tree_mkdir_on_free_name fs q s :
  Tree.stat fs (q ++ [s]) = inl ENOENT →
  (∃ fs', Tree.mkdir fs (q ++ [s]) = inr fs') ∨ Tree.mkdir fs (q ++ [s]) = inl ENOENT.
Proof.
  intros Hs. unfold Tree.mkdir. rewrite split_last_snoc.
  destruct (dir_at fs q) as [e|d] eqn:Hd.
  - rewrite (tree_stat_child_no_parent _ _ _ _ Hd) in Hs. right. congruence.
  - rewrite (tree_stat_child _ _ _ _ Hd) in Hs. destruct (d !! s); [done|]. eauto.
Qed.

Lemma tree_stat_inl_dir_at fs q e : Tree.stat fs q = inl e → dir_at fs q = inl e.
Proof.
  unfold Tree.stat, dir_at.
  destruct (lookup_path fs q) as [?|[|?]]; intros; by simplify_eq/=.
Qed.

Lemma modify_dir_twice es q f g d :
  dir_at es q = inr d →
  modify_dir (modify_dir es q f) q g = modify_dir es q (g ∘ f).
Proof.
  revert es. induction q as [|s q IH]; intros es Hd; [done|].
  destruct (dir_at_cons _ _ _ _ Hd) as (es' & Hs & Hd').
  simpl. rewrite Hs, lookup_insert_eq, insert_insert_eq. by rewrite (IH _ Hd').
Qed.



Lemma dirname_snoc q s : dirname (q ++ [s]) = q.
Proof. unfold dirname. by rewrite split_last_snoc. Qed.

Lemma dirname_nil : dirname [] = [].
Proof. done. Qed.

(** The parent of a directory is a directory. *)
Lemma tree_stat_dirname fs p k : Tree.stat fs p = inr k → Tree.stat fs (dirname p) = inr KDir.
Proof.
  destruct (path_cases p) as [->|(q & s & ->)]; [done|].
  rewrite dirname_snoc. by apply tree_stat_ancestor.
Qed.

(** A change inside the directory at [q] is invisible from every address
    that does not go below [q]. *)
Lemma tree_stat_modify_dir_above es q f d r :
  dir_at es q = inr d →
  (∀ x r', r ≠ q ++ x :: r') →
  Tree.stat (modify_dir es q f) r = Tree.stat es r.
Proof.
  revert es r. induction q as [|s0 q IH]; intros es r Hd Hr.
  - destruct r as [|x r']; [done|]. by destruct (Hr x r').
  - destruct (dir_at_cons _ _ _ _ Hd) as (es' & Hs & Hd').
    simpl. rewrite Hs. destruct r as [|t r]; [done|].
    rewrite !tree_stat_cons.
    destruct (decide (t = s0)) as [->|Hne].
    + rewrite lookup_insert_eq, Hs. apply (IH _ _ Hd').
      intros x r' ->. by apply (Hr x r').
    + by rewrite lookup_insert_ne.
Qed.

(** Below the directory at [q], resolution continues in its new entries. *)
Lemma tree_stat_modify_dir_under es q f d r :
  dir_at es q = inr d →
  Tree.stat (modify_dir es q f) (q ++ r) = Tree.stat (f d) r.
Proof.
  intros Hd. unfold Tree.stat. by rewrite (lookup_modify_dir_under _ _ _ _ _ Hd).
Qed.

(** Emptying a directory takes away what is below it and nothing else. *)
Lemma tree_stat_emptied_below fs c d x r :
  dir_at fs c = inr d →
  Tree.stat (modify_dir fs c (λ _, ∅)) (c ++ x :: r) = inl ENOENT.
Proof.
  intros Hd. rewrite (tree_stat_modify_dir_under _ _ _ _ _ Hd).
  by rewrite tree_stat_cons, lookup_empty.
Qed.

Lemma tree_stat_emptied_other fs c d r :
  dir_at fs c = inr d →
  (∀ x r', r ≠ c ++ x :: r') →
  Tree.stat (modify_dir fs c (λ _, ∅)) r = Tree.stat fs r.
Proof. apply tree_stat_modify_dir_above. Qed.

Lemma strictly_below_dec (c r : Path) :
  (∃ x r', r = c ++ x :: r') ∨ (∀ x r', r ≠ c ++ x :: r').
Proof.
  destruct (decide (c `prefix_of` r)) as [[[|x r'] ->]|Hn].
  - right. intros x r' H. rewrite app_nil_r in H.
    apply (f_equal length) in H. rewrite length_app in H. simpl in H. lia.
  - left. eauto.
  - right. intros x r' ->. apply Hn. by eexists.
Qed.

(** What is there after emptying was there before. *)
Lemma tree_stat_emptied_was fs c d r k :
  dir_at fs c = inr d →
  Tree.stat (modify_dir fs c (λ _, ∅)) r = inr k → Tree.stat fs r = inr k.
Proof.
  intros Hd. destruct (strictly_below_dec c r) as [(x & r' & ->)|Hr].
  - by rewrite (tree_stat_emptied_below _ _ _ _ _ Hd).
  - by rewrite (tree_stat_emptied_other _ _ _ _ Hd Hr).
Qed.

Lemma emptied_twice fs c d :
  dir_at fs c = inr d →
  modify_dir (modify_dir fs c (λ _, ∅)) c (λ _, ∅) = modify_dir fs c (λ _, ∅).
Proof. intros Hd. by rewrite (modify_dir_twice _ _ _ _ _ Hd). Qed.

(** [rmdir] takes an empty directory away; addresses that do not go
    through it are as before. *)
Lemma tree_rmdir_inv fs p fs' :
  Tree.rmdir fs p = inr fs' →
  ∃ q s d es, p = q ++ [s] ∧ dir_at fs q = inr d ∧ d !! s = Some (Dir es) ∧
              size es = 0 ∧ fs' = modify_dir fs q (delete s).
Proof.
  unfold Tree.rmdir. destruct (split_last p) as [[q s]|] eqn:E; [|done].
  apply split_last_Some in E as ->.
  destruct (dir_at fs q) as [e|d] eqn:Hd; [done|].
  destruct (d !! s) as [[|es]|] eqn:Hs; [done| |done].
  case_decide; [|done]. intros [= <-]. by exists q, s, d, es.
Qed.

Lemma tree_rmdir_stat fs p fs' :
  Tree.rmdir fs p = inr fs' →
  Tree.stat fs p = inr KDir ∧
  Tree.stat fs' p = inl ENOENT ∧
  ∀ r, ¬ p `prefix_of` r → Tree.stat fs' r = Tree.stat fs r.
Proof.
  intros (q & s & d & es & -> & Hd & Hs & _ & ->)%tree_rmdir_inv. split_and!.
  - by rewrite (tree_stat_child _ _ _ _ Hd), Hs.
  - by rewrite (tree_stat_modify_dir_child _ _ _ _ _ Hd), lookup_delete_eq.
  - intros r Hr. apply (tree_stat_modify_dir_off _ _ _ _ s _ Hd); [|done].
    intros x Hx. by rewrite lookup_delete_ne.
Qed.



End tree.

(* ===================================================================== *)
(** * Path resolution *)
(* ===================================================================== *)

Section resolution.
Implicit Types (p q r c : Path) (s x : string) (fs : FS).

Lemma tree_stat_prefix_err fs q r e :
  Tree.stat fs q = inl e → Tree.stat fs (q ++ r) = inl e.
Proof.
  unfold Tree.stat. rewrite lookup_path_app.
  destruct (lookup_path fs q) as [e'|n]; [by intros [= ->]|done].
Qed.

Lemma tree_stat_below_file fs q r :
  Tree.stat fs q = inr KFile → r ≠ [] → Tree.stat fs (q ++ r) = inl ENOTDIR.
Proof.
  unfold Tree.stat. rewrite lookup_path_app.
  destruct (lookup_path fs q) as [e'|[|d]]; [done| |done]. by destruct r.
Qed.

(** Resolution of a concatenation goes through the first part. *)
Lemma walk_app fs c q r :
  walk fs c (q ++ r) =
    match walk fs c q with
    | inl e => inl e
    | inr c' => walk fs c' r
    end.
Proof.
  revert c. induction q as [|x q IH]; intros c; simpl; [done|].
  case_decide.
  - destruct (Tree.stat fs c) as [e|[|]]; [done..|]. apply IH.
  - destruct (Tree.stat fs (c ++ [x])) as [e|k]; [done|]. apply IH.
Qed.

(** Without [".."] resolution is the lookup of an address. *)
Lemma walk_plain fs c p k :
  ".." ∉ p → Tree.stat fs c = inr k →
  walk fs c p = match Tree.stat fs (c ++ p) with
                | inr _ => inr (c ++ p)
                | inl e => inl e
                end.
Proof.
  revert c k. induction p as [|x p IH]; intros c k Hp Hc; simpl.
  - by rewrite app_nil_r, Hc.
  - apply not_elem_of_cons in Hp as [Hx Hp]. rewrite decide_False by done.
    rewrite (cons_middle x c p), (assoc_L (++)).
    destruct (Tree.stat fs (c ++ [x])) as [e|k'] eqn:E.
    + by rewrite (tree_stat_prefix_err _ _ _ _ E).
    + by apply (IH _ k').
Qed.

(** What resolution reaches is there. *)
Lemma walk_exists fs c p c' k :
  Tree.stat fs c = inr k → walk fs c p = inr c' → ∃ k', Tree.stat fs c' = inr k'.
Proof.
  revert c k. induction p as [|x p IH]; intros c k Hc; simpl.
  - intros [= <-]. eauto.
  - case_decide.
    + destruct (Tree.stat fs c) as [e|[|]] eqn:E; [done..|].
      apply (IH _ KDir). by eapply tree_stat_dirname.
    + destruct (Tree.stat fs (c ++ [x])) as [e|k'] eqn:E; [done|]. by apply (IH _ k').
Qed.

(** Resolution survives in a filesystem that has everything this one has. *)
Lemma walk_mono fs fs' c p c' :
  (∀ r k, Tree.stat fs r = inr k → Tree.stat fs' r = inr k) →
  walk fs c p = inr c' → walk fs' c p = inr c'.
Proof.
  intros Hsub. revert c. induction p as [|x p IH]; intros c; simpl; [done|].
  case_decide.
  - destruct (Tree.stat fs c) as [e|[|]] eqn:E; [done..|].
    rewrite (Hsub _ _ E). apply IH.
  - destruct (Tree.stat fs (c ++ [x])) as [e|k'] eqn:E; [done|].
    rewrite (Hsub _ _ E). apply IH.
Qed.

Lemma resolve_exists fs p c : Os.resolve fs p = inr c → ∃ k, Tree.stat fs c = inr k.
Proof. by apply (walk_exists _ [] _ _ KDir). Qed.

Lemma resolve_mono fs fs' p c :
  (∀ r k, Tree.stat fs r = inr k → Tree.stat fs' r = inr k) →
  Os.resolve fs p = inr c → Os.resolve fs' p = inr c.
Proof. apply walk_mono. Qed.

Lemma resolve_plain fs p :
  ".." ∉ p →
  Os.resolve fs p = match Tree.stat fs p with
                    | inr _ => inr p
                    | inl e => inl e
                    end.
Proof. intros Hp. by apply (walk_plain _ [] _ KDir). Qed.

Lemma os_stat_plain fs p : ".." ∉ p → Os.stat fs p = Tree.stat fs p.
Proof.
  intros Hp. unfold Os.stat. rewrite (resolve_plain _ _ Hp).
  by destruct (Tree.stat fs p) eqn:E.
Qed.

Lemma resolve_dir_plain fs q :
  ".." ∉ q →
  Os.resolve_dir fs q = match Tree.stat fs q with
                        | inr KDir => inr q
                        | inr KFile => inl ENOTDIR
                        | inl e => inl e
                        end.
Proof.
  intros Hq. unfold Os.resolve_dir. rewrite (resolve_plain _ _ Hq).
  destruct (Tree.stat fs q) as [e|k] eqn:E; [done|]. by rewrite E.
Qed.

(** [stat] answers for the node that resolution reaches. *)
Lemma os_stat_resolve fs p k :
  Os.stat fs p = inr k ↔ ∃ c, Os.resolve fs p = inr c ∧ Tree.stat fs c = inr k.
Proof.
  unfold Os.stat. destruct (Os.resolve fs p) as [e|c]; split.
  - done.
  - by intros (? & ? & ?).
  - eauto.
  - by intros (? & [= <-] & ?).
Qed.

Lemma os_stat_errno fs p e : Os.stat fs p = inl e → e = ENOENT ∨ e = ENOTDIR.
Proof.
  unfold Os.stat, Os.resolve. generalize (@nil string) as c.
  induction p as [|x p IH]; intros c; simpl.
  - apply tree_stat_errno.
  - case_decide.
    + destruct (Tree.stat fs c) as [e'|[|]] eqn:E.
      * intros [= ->]. by eapply tree_stat_errno.
      * intros [= <-]. by right.
      * apply IH.
    + destruct (Tree.stat fs (c ++ [x])) as [e'|k] eqn:E; [|apply IH].
      intros [= ->]. by eapply tree_stat_errno.
Qed.

Lemma resolve_dir_inr fs q c :
  Os.resolve_dir fs q = inr c ↔ Os.resolve fs q = inr c ∧ Tree.stat fs c = inr KDir.
Proof.
  unfold Os.resolve_dir. destruct (Os.resolve fs q) as [e|c']; [by split; [|intros []]|].
  destruct (Tree.stat fs c') as [e|[|]] eqn:E; split; try done.
  - by intros [[= ->] ?]; congruence.
  - by intros [[= ->] ?]; congruence.
  - by intros [= <-].
  - by intros [[= ->] ?].
Qed.

Lemma resolve_dir_stat fs q :
  Os.stat fs q = inr KDir ↔ ∃ c, Os.resolve_dir fs q = inr c.
Proof.
  rewrite os_stat_resolve. split.
  - intros (c & ? & ?). exists c. by apply resolve_dir_inr.
  - intros (c & Hc%resolve_dir_inr). eauto.
Qed.

Lemma resolve_dir_dir_at fs q c :
  Os.resolve_dir fs q = inr c → ∃ d, dir_at fs c = inr d.
Proof. intros [_ Hc]%resolve_dir_inr. by apply tree_dir_at_stat. Qed.

Lemma resolve_dir_mono fs fs' q c :
  (∀ r k, Tree.stat fs r = inr k → Tree.stat fs' r = inr k) →
  Os.resolve_dir fs q = inr c → Os.resolve_dir fs' q = inr c.
Proof.
  intros Hsub [Hr Hc]%resolve_dir_inr. apply resolve_dir_inr.
  split; [by eapply resolve_mono|by apply Hsub].
Qed.

(** [stat] of a path in terms of the directory its last component is
    looked up in. *)
Lemma os_stat_snoc fs q x :
  Os.stat fs (q ++ [x]) =
    match Os.resolve_dir fs q with
    | inl e => inl e
    | inr c => if decide (x = "..") then inr KDir else Tree.stat fs (c ++ [x])
    end.
Proof.
  unfold Os.stat, Os.resolve_dir, Os.resolve. rewrite walk_app.
  destruct (walk fs [] q) as [e|c]; [done|]. simpl. case_decide.
  - destruct (Tree.stat fs c) as [e|[|]] eqn:E; [done..|].
    by eapply tree_stat_dirname.
  - destruct (Tree.stat fs c) as [e|[|]] eqn:E.
    + by rewrite (tree_stat_prefix_err _ _ _ _ E).
    + by rewrite (tree_stat_below_file _ _ _ E).
    + by destruct (Tree.stat fs (c ++ [x])) eqn:E'.
Qed.

Lemma resolve_snoc fs q x c :
  Os.resolve_dir fs q = inr c → x ≠ ".." →
  Os.resolve fs (q ++ [x]) = match Tree.stat fs (c ++ [x]) with
                             | inr _ => inr (c ++ [x])
                             | inl e => inl e
                             end.
Proof.
  intros [Hr Hc]%resolve_dir_inr Hx. unfold Os.resolve in *. rewrite walk_app, Hr.
  simpl. by rewrite decide_False.
Qed.

(** What exists has a directory at each proper ancestor. *)
Lemma os_stat_parent fs q x k : Os.stat fs (q ++ [x]) = inr k → Os.stat fs q = inr KDir.
Proof.
  rewrite os_stat_snoc. destruct (Os.resolve_dir fs q) as [e|c] eqn:E; [done|].
  intros _. apply resolve_dir_stat. eauto.
Qed.

Lemma os_stat_ancestor fs q r k :
  r ≠ [] → Os.stat fs (q ++ r) = inr k → Os.stat fs q = inr KDir.
Proof.
  revert k. induction r as [|x r IH] using rev_ind; intros k Hr; [done|].
  rewrite (assoc_L (++)). intros H%os_stat_parent.
  destruct r as [|y r]; [by rewrite app_nil_r in H|]. by apply (IH KDir).
Qed.

End resolution.

(* ===================================================================== *)
(** * The system calls *)
(* ===================================================================== *)

Section syscalls.
Implicit Types (p q r c : Path) (s x : string) (fs : FS).

(** *** On addresses: without [".."] a call is what it does at the address *)

Lemma os_mkdir_plain fs p : ".." ∉ p → Os.mkdir fs p = Tree.mkdir fs p.
Proof.
  intros Hp. destruct (path_cases p) as [->|(q & x & ->)]; [done|].
  apply not_elem_of_app in Hp as [Hq Hx%not_elem_of_cons]. destruct Hx as [Hx _].
  unfold Os.mkdir, Tree.mkdir. rewrite split_last_snoc, (resolve_dir_plain _ _ Hq).
  destruct (Tree.stat fs q) as [e|[|]] eqn:E.
  - by rewrite (tree_stat_inl_dir_at _ _ _ E).
  - unfold Tree.stat, dir_at in *. by destruct (lookup_path fs q) as [?|[|?]].
  - rewrite decide_False by done. unfold Tree.mkdir. by rewrite split_last_snoc.
Qed.

Lemma os_open_creat_plain fs p : ".." ∉ p → Os.open_creat fs p = Tree.open_creat fs p.
Proof.
  intros Hp. destruct (path_cases p) as [->|(q & x & ->)]; [done|].
  apply not_elem_of_app in Hp as [Hq Hx%not_elem_of_cons]. destruct Hx as [Hx _].
  unfold Os.open_creat, Tree.open_creat.
  rewrite split_last_snoc, (resolve_dir_plain _ _ Hq).
  destruct (Tree.stat fs q) as [e|[|]] eqn:E.
  - by rewrite (tree_stat_inl_dir_at _ _ _ E).
  - unfold Tree.stat, dir_at in *. by destruct (lookup_path fs q) as [?|[|?]].
  - rewrite decide_False by done. unfold Tree.open_creat. by rewrite split_last_snoc.
Qed.



(** *** On every path *)

Lemma os_mkdir_inv fs p fs' :
  Os.mkdir fs p = inr fs' →
  ∃ q x c, p = q ++ [x] ∧ Os.resolve_dir fs q = inr c ∧ x ≠ ".." ∧
           Tree.mkdir fs (c ++ [x]) = inr fs'.
Proof.
  unfold Os.mkdir. destruct (split_last p) as [[q x]|] eqn:E; [|done].
  apply split_last_Some in E as ->.
  destruct (Os.resolve_dir fs q) as [e|c] eqn:Hc; [done|].
  case_decide as Hx; [done|]. intros Hm. by exists q, x, c.
Qed.

Lemma tree_mkdir_grows fs a fs' : Tree.mkdir fs a = inr fs' → grows fs fs'.
Proof.
  intros E r k Hr. rewrite (tree_mkdir_stat _ _ _ _ E).
  case_decide as Ha; [|done]. subst r.
  apply tree_mkdir_was_absent in E. congruence.
Qed.

Lemma tree_open_creat_grows fs a fs' : Tree.open_creat fs a = inr fs' → grows fs fs'.
Proof.
  intros E r k Hr. destruct (tree_open_creat_stat _ _ _ E) as [_ Hoff].
  unfold Tree.open_creat in E.
  destruct (split_last a) as [[q s]|] eqn:Es; [|done].
  apply split_last_Some in Es as ->.
  destruct (dir_at fs q) as [e|d] eqn:Hd; [done|].
  destruct (d !! s) as [[|?]|] eqn:Hs; [by simplify_eq|done|].
  destruct (decide ((q ++ [s]) `prefix_of` r)) as [[r' ->]|Hn]; [|by rewrite Hoff].
  assert (Tree.stat fs (q ++ [s]) = inl ENOENT) as Ha.
  { by rewrite (tree_stat_child _ _ _ _ Hd), Hs. }
  by rewrite (tree_stat_prefix_err _ _ _ _ Ha) in Hr.
Qed.

(** [os.mkdir] leaves a directory at the path and keeps what was there. *)
Lemma os_mkdir_ok fs p fs' :
  Os.mkdir fs p = inr fs' →
  Os.stat fs' p = inr KDir ∧ Os.stat fs p = inl ENOENT ∧ grows fs fs'.
Proof.
  intros (q & x & c & -> & Hc & Hx & E)%os_mkdir_inv.
  pose proof (tree_mkdir_grows _ _ _ E) as Hg.
  rewrite !os_stat_snoc, Hc, (resolve_dir_mono _ _ _ _ Hg Hc), !decide_False by done.
  split_and!; [|by eapply tree_mkdir_was_absent|done].
  by rewrite (tree_mkdir_stat _ _ _ _ E), decide_True.
Qed.

Lemma os_mkdir_EEXIST fs p k : Os.stat fs p = inr k → Os.mkdir fs p = inl EEXIST.
Proof.
  destruct (path_cases p) as [->|(q & x & ->)]; [done|].
  rewrite os_stat_snoc. unfold Os.mkdir. rewrite split_last_snoc.
  destruct (Os.resolve_dir fs q) as [e|c]; [done|].
  case_decide; [done|]. apply tree_mkdir_EEXIST.
Qed.

(** The errors of [os.mkdir]: whatever it is, there is no directory at the
    path unless the error is [EEXIST]. *)
Lemma os_mkdir_err fs p e :
  Os.mkdir fs p = inl e →
  (e = EEXIST ∧ ∃ k, Os.stat fs p = inr k) ∨ (e ≠ EEXIST ∧ Os.stat fs p = inl e).
Proof.
  destruct (path_cases p) as [->|(q & x & ->)].
  { intros [= <-]. left. eauto. }
  unfold Os.mkdir. rewrite split_last_snoc, os_stat_snoc.
  destruct (Os.resolve_dir fs q) as [e'|c] eqn:Hc.
  - intros [= ->]. right. split; [|done].
    unfold Os.resolve_dir in Hc. destruct (Os.resolve fs q) as [e''|c] eqn:Hr.
    + simplify_eq. assert (Os.stat fs q = inl e) as H by (unfold Os.stat; by rewrite Hr).
      by destruct (os_stat_errno _ _ _ H) as [->| ->].
    + destruct (Tree.stat fs c) as [e''|[|]] eqn:E; simplify_eq; [|done].
      by destruct (tree_stat_errno _ _ _ E) as [->| ->].
  - case_decide; [intros [= <-]; left; eauto|].
    destruct (resolve_dir_dir_at _ _ _ Hc) as [d Hd].
    unfold Tree.mkdir. rewrite split_last_snoc, Hd, (tree_stat_child _ _ _ _ Hd).
    destruct (d !! x); [|done]. intros [= <-]. left. eauto.
Qed.

Lemma os_mkdir_succeeds fs q x :
  Os.stat fs q = inr KDir → Os.stat fs (q ++ [x]) = inl ENOENT →
  ∃ fs', Os.mkdir fs (q ++ [x]) = inr fs'.
Proof.
  intros [c Hc]%resolve_dir_stat. rewrite os_stat_snoc, Hc.
  case_decide; [done|]. intros Hs.
  unfold Os.mkdir. rewrite split_last_snoc, Hc, decide_False by done.
  apply tree_mkdir_succeeds; [|done]. by apply resolve_dir_inr in Hc as [_ ?].
Qed.

(** [os.open] with [O_CREAT] leaves a regular file at the path and keeps
    what was there. *)
Lemma os_open_creat_ok fs p fs' :
  Os.open_creat fs p = inr fs' → Os.stat fs' p = inr KFile ∧ grows fs fs'.
Proof.
  unfold Os.open_creat. destruct (split_last p) as [[q x]|] eqn:E; [|done].
  apply split_last_Some in E as ->.
  destruct (Os.resolve_dir fs q) as [e|c] eqn:Hc; [done|].
  case_decide; [done|]. intros E.
  pose proof (tree_open_creat_grows _ _ _ E) as Hg. split; [|done].
  rewrite os_stat_snoc, (resolve_dir_mono _ _ _ _ Hg Hc), decide_False by done.
  by destruct (tree_open_creat_stat _ _ _ E).
Qed.

Lemma os_open_creat_succeeds fs q x :
  Os.stat fs q = inr KDir → Os.stat fs (q ++ [x]) = inl ENOENT →
  ∃ fs', Os.open_creat fs (q ++ [x]) = inr fs'.
Proof.
  intros [c Hc]%resolve_dir_stat. rewrite os_stat_snoc, Hc.
  case_decide; [done|]. intros Hs.
  unfold Os.open_creat. rewrite split_last_snoc, Hc, decide_False by done.
  apply tree_open_creat_succeeds; [|done]. by apply resolve_dir_inr in Hc as [_ ?].
Qed.

(** What a removal at the address [c ++ [x]] leaves of a path that led
    there: nothing. *)
Lemma removed_is_absent fs fs' q x c k e :
  Os.resolve_dir fs q = inr c → x ≠ ".." →
  Tree.stat fs (c ++ [x]) = inr k →
  Tree.stat fs' (c ++ [x]) = inl e →
  grows fs' fs →
  ∃ e', Os.stat fs' (q ++ [x]) = inl e'.
Proof.
  intros Hc Hx Hk He Hg.
  destruct (Os.stat fs' (q ++ [x])) as [e'|k'] eqn:Hs; [eauto|].
  apply os_stat_resolve in Hs as (c2 & Hr2 & Hk2).
  apply (resolve_mono _ _ _ _ Hg) in Hr2.
  rewrite (resolve_snoc _ _ _ _ Hc Hx), Hk in Hr2. simplify_eq. congruence.
Qed.

Lemma tree_unlink_shrinks fs a fs' : Tree.unlink fs a = inr fs' → grows fs' fs.
Proof.
  intros E r k Hr. destruct (tree_unlink_stat _ _ _ E) as [Ha Hoff].
  destruct (decide (a `prefix_of` r)) as [[r' ->]|Hn]; [|by rewrite <- Hoff].
  by rewrite (tree_stat_prefix_err _ _ _ _ Ha) in Hr.
Qed.

Lemma tree_rmdir_shrinks fs a fs' : Tree.rmdir fs a = inr fs' → grows fs' fs.
Proof.
  intros E r k Hr. destruct (tree_rmdir_stat _ _ _ E) as (_ & Ha & Hoff).
  destruct (decide (a `prefix_of` r)) as [[r' ->]|Hn]; [|by rewrite <- Hoff].
  by rewrite (tree_stat_prefix_err _ _ _ _ Ha) in Hr.
Qed.

(** [os.unlink] of a regular file always works, changes the filesystem and
    leaves nothing at the path. *)
Lemma os_unlink_file fs p :
  Os.stat fs p = inr KFile →
  ∃ fs', Os.unlink fs p = inr fs' ∧ fs' ≠ fs ∧ ∃ e, Os.stat fs' p = inl e.
Proof.
  destruct (path_cases p) as [->|(q & x & ->)]; [done|].
  rewrite os_stat_snoc. destruct (Os.resolve_dir fs q) as [e|c] eqn:Hc; [done|].
  case_decide as Hx; [done|]. intros Hk.
  destruct (tree_unlink_file_succeeds _ _ Hk) as [fs' E]. exists fs'.
  unfold Os.unlink. rewrite split_last_snoc, Hc, decide_False by done.
  destruct (tree_unlink_stat _ _ _ E) as [Ha _]. split_and!; [done| |].
  - intros ->. congruence.
  - eapply removed_is_absent; eauto using tree_unlink_shrinks.
Qed.

Lemma os_unlink_ok fs p fs' :
  Os.unlink fs p = inr fs' → Os.stat fs p = inr KFile.
Proof.
  unfold Os.unlink. destruct (split_last p) as [[q x]|] eqn:E; [|done].
  apply split_last_Some in E as ->. rewrite os_stat_snoc.
  destruct (Os.resolve_dir fs q) as [e|c] eqn:Hc; [done|].
  case_decide; [done|]. destruct (resolve_dir_dir_at _ _ _ Hc) as [d Hd].
  unfold Tree.unlink. rewrite split_last_snoc, Hd, (tree_stat_child _ _ _ _ Hd).
  by destruct (d !! x) as [[|?]|].
Qed.

(** [os.rmdir], when it works, changes the filesystem and leaves nothing
    at the path. *)
Lemma os_rmdir_ok fs p fs' :
  Os.rmdir fs p = inr fs' →
  ∃ a, Tree.stat fs a = inr KDir ∧ Tree.stat fs' a = inl ENOENT ∧
       grows fs' fs ∧ ∃ e, Os.stat fs' p = inl e.
Proof.
  unfold Os.rmdir. destruct (split_last p) as [[q x]|] eqn:E; [|done].
  apply split_last_Some in E as ->.
  destruct (Os.resolve_dir fs q) as [e|c] eqn:Hc; [done|].
  case_decide as Hx; [done|]. intros E.
  destruct (tree_rmdir_stat _ _ _ E) as (Hb & Ha & _).
  exists (c ++ [x]). split_and!; [done..|by eapply tree_rmdir_shrinks|].
  eapply removed_is_absent; eauto using tree_rmdir_shrinks.
Qed.

End syscalls.

(* ===================================================================== *)
(** * [pathlib] and [shutil] *)
(* ===================================================================== *)

Section pathlib.
Implicit Types (p q r c : Path) (s x : string) (fs : FS).

Lemma grows_refl fs : grows fs fs.
Proof. by intros r k. Qed.

Lemma grows_trans fs1 fs2 fs3 : grows fs1 fs2 → grows fs2 fs3 → grows fs1 fs3.
Proof. intros H1 H2 r k H. by apply H2, H1. Qed.

#[local] Hint Resolve grows_refl : core.

Lemma exists_true fs p : Pathlib.exists_ fs p = true ↔ ∃ k, Os.stat fs p = inr k.
Proof.
  unfold Pathlib.exists_. destruct (Os.stat fs p); split; try done; eauto.
  by intros [? ?].
Qed.

Lemma exists_false fs p : Pathlib.exists_ fs p = false ↔ ∃ e, Os.stat fs p = inl e.
Proof.
  unfold Pathlib.exists_. destruct (Os.stat fs p); split; try done; eauto.
  by intros [? ?].
Qed.

Lemma is_dir_true fs p : Pathlib.is_dir fs p = true ↔ Os.stat fs p = inr KDir.
Proof. unfold Pathlib.is_dir. by destruct (Os.stat fs p) as [?|[|]]. Qed.

Lemma is_dir_exists fs p : Pathlib.is_dir fs p = true → Pathlib.exists_ fs p = true.
Proof. intros H%is_dir_true. apply exists_true. eauto. Qed.

(** Nothing exists below what is not a directory. *)
Lemma absent_below fs q s :
  Pathlib.is_dir fs q = false → Pathlib.exists_ fs (q ++ [s]) = false.
Proof.
  intros Hq. destruct (Pathlib.exists_ fs (q ++ [s])) eqn:Hex; [|done].
  apply exists_true in Hex as [k Hk%os_stat_parent].
  apply is_dir_true in Hk. congruence.
Qed.

(** With [parents=False] the recursive definition is the flat one. *)
Lemma mkdir_rev_flat rself exist_ok fs :
  Pathlib.mkdir_rev rself false exist_ok fs
  = Pathlib.mkdir_flat (rev rself) exist_ok fs.
Proof.
  unfold Pathlib.mkdir_flat.
  destruct rself as [|s rq]; cbn [Pathlib.mkdir_rev];
    by destruct (Os.mkdir _ _) as [[]|].
Qed.

Lemma mkdir_noparents p exist_ok fs :
  Pathlib.mkdir p false exist_ok fs = Pathlib.mkdir_flat p exist_ok fs.
Proof. unfold Pathlib.mkdir. by rewrite mkdir_rev_flat, rev_involutive. Qed.

(** The first step of [Path.mkdir], whatever [parents] says. *)
Lemma mkdir_rev_first_ok rself parents exist_ok fs fs' :
  Os.mkdir fs (rev rself) = inr fs' →
  Pathlib.mkdir_rev rself parents exist_ok fs = (inr tt, fs').
Proof. intros E. destruct rself; cbn [Pathlib.mkdir_rev]; by rewrite E. Qed.

Lemma mkdir_rev_first_err rself parents exist_ok fs e :
  Os.mkdir fs (rev rself) = inl e → e ≠ ENOENT →
  Pathlib.mkdir_rev rself parents exist_ok fs
  = if exist_ok && Pathlib.is_dir fs (rev rself) then (inr tt, fs) else (inl e, fs).
Proof.
  intros E He. destruct rself; cbn [Pathlib.mkdir_rev]; rewrite E; by destruct e.
Qed.

Lemma mkdir_flat_err self exist_ok fs e :
  Os.mkdir fs self = inl e → e ≠ ENOENT →
  Pathlib.mkdir_flat self exist_ok fs
  = if exist_ok && Pathlib.is_dir fs self then (inr tt, fs) else (inl e, fs).
Proof. intros E He. unfold Pathlib.mkdir_flat. rewrite E. by destruct e. Qed.

(** *** On every path *)

(** [Path.mkdir] with [exist_ok] on a directory that is there. *)
Lemma mkdir_existing_dir fs p parents :
  Os.stat fs p = inr KDir → Pathlib.mkdir p parents true fs = (inr tt, fs).
Proof.
  intros Hp. pose proof (os_mkdir_EEXIST _ _ _ Hp) as E.
  apply is_dir_true in Hp. unfold Pathlib.mkdir.
  rewrite <- (rev_involutive p) in E, Hp.
  by rewrite (mkdir_rev_first_err _ _ _ _ _ E), Hp.
Qed.

(** Without [parents], [Path.mkdir] fails under anything that is not a
    directory, and creates nothing. *)
Lemma mkdir_flat_no_parent fs q s exist_ok :
  Pathlib.is_dir fs q = false →
  ∃ e, Pathlib.mkdir_flat (q ++ [s]) exist_ok fs = (inl e, fs).
Proof.
  intros Hq. pose proof (absent_below _ _ s Hq) as Hp.
  assert (Hnd : Pathlib.is_dir fs (q ++ [s]) = false).
  { unfold Pathlib.is_dir. apply exists_false in Hp as [e' ->]. done. }
  destruct (Os.mkdir fs (q ++ [s])) as [e|fs'] eqn:E.
  - destruct (decide (e = ENOENT)) as [->|He].
    + exists ENOENT. unfold Pathlib.mkdir_flat. by rewrite E.
    + exists e. by rewrite (mkdir_flat_err _ _ _ _ E He), Hnd, andb_false_r.
  - apply os_mkdir_inv in E as (q' & x & c & Heq & Hc & _).
    apply app_inj_tail in Heq as [<- <-].
    assert (Os.stat fs q = inr KDir) as H%is_dir_true by (apply resolve_dir_stat; eauto).
    congruence.
Qed.

(** A successful flat [mkdir] leaves a directory and keeps what was there. *)
Lemma mkdir_flat_ok self fs u fs' :
  Pathlib.mkdir_flat self true fs = (inr u, fs') →
  Pathlib.is_dir fs' self = true ∧ grows fs fs'.
Proof.
  unfold Pathlib.mkdir_flat. destruct (Os.mkdir fs self) as [e|fs1] eqn:E.
  - destruct e; try done; simpl;
      destruct (Pathlib.is_dir fs self) eqn:B; try done;
      intros ?; simplify_eq; by split.
  - intros ?; simplify_eq. destruct (os_mkdir_ok _ _ _ E) as (H & _ & Hg).
    split; [by apply is_dir_true|done].
Qed.

(** A failed flat [mkdir] has changed nothing and there is no directory. *)
Lemma mkdir_flat_fail self fs e fs' :
  Pathlib.mkdir_flat self true fs = (inl e, fs') →
  fs' = fs ∧ Pathlib.is_dir fs self = false.
Proof.
  unfold Pathlib.mkdir_flat. destruct (Os.mkdir fs self) as [e'|fs1] eqn:E; [|done].
  destruct (decide (e' = ENOENT)) as [->|He].
  - intros [= <- <-]. split; [done|].
    destruct (os_mkdir_err _ _ _ E) as [[? _]|[_ H]]; [done|].
    unfold Pathlib.is_dir. by rewrite H.
  - destruct (Pathlib.is_dir fs self) eqn:B; destruct e'; try done; simpl;
      by intros [= <- <-].
Qed.

(** However [Path.mkdir] ends, with [exist_ok] its answer tells whether
    there is a directory at the path now, it has only added to the
    filesystem, and calling it again changes nothing more and ends the same
    way. *)
Lemma mkdir_rev_outcome rself parents fs :
  match Pathlib.mkdir_rev rself parents true fs with
  | (inr _, fs') =>
      Pathlib.is_dir fs' (rev rself) = true ∧ grows fs fs' ∧
      Pathlib.mkdir_rev rself parents true fs' = (inr tt, fs')
  | (inl e, fs') =>
      Pathlib.is_dir fs' (rev rself) = false ∧ grows fs fs' ∧
      ∃ e', Pathlib.mkdir_rev rself parents true fs' = (inl e', fs')
  end.
Proof.
  revert parents fs. induction rself as [|x rq IH]; intros parents fs.
  - simpl. by split_and!.
  - destruct (Os.mkdir fs (rev (x :: rq))) as [e|fs1] eqn:E.
    + destruct (decide (e = ENOENT)) as [->|He].
      * destruct parents.
        2:{ rewrite mkdir_rev_flat. unfold Pathlib.mkdir_flat. rewrite E.
            split_and!; [|done|].
            2:{ rewrite mkdir_rev_flat. unfold Pathlib.mkdir_flat. rewrite E. eauto. }
            destruct (os_mkdir_err _ _ _ E) as [[? _]|[_ H]]; [done|].
            unfold Pathlib.is_dir. by rewrite H. }
        cbn [Pathlib.mkdir_rev]. rewrite E.
        specialize (IH true fs).
        destruct (Pathlib.mkdir_rev rq true true fs) as [[e|u] fs1] eqn:E1.
        -- destruct IH as (Hnd & Hg & e' & E1').
           assert (Hne : Pathlib.is_dir fs1 (rev (x :: rq)) = false).
           { simpl. apply not_true_iff_false. intros H%is_dir_exists.
             by rewrite absent_below in H. }
           split_and!; [done..|]. cbn [Pathlib.mkdir_rev].
           destruct (Os.mkdir fs1 (rev (x :: rq))) as [e2|fs2] eqn:E2.
           ++ destruct (decide (e2 = ENOENT)) as [->|He2].
              ** rewrite E1'. eauto.
              ** rewrite Hne. simpl. destruct e2; try done; eauto.
           ++ apply os_mkdir_inv in E2 as (q' & x' & c & Heq & Hc & _).
              simpl in Heq. apply app_inj_tail in Heq as [<- <-].
              assert (Os.stat fs1 (rev rq) = inr KDir) as H%is_dir_true
                by (apply resolve_dir_stat; eauto).
              congruence.
        -- destruct IH as (Hd & Hg & E1').
           destruct (Pathlib.mkdir_flat (rev (x :: rq)) true fs1) as [[e|u'] fs2] eqn:E2.
           ++ apply mkdir_flat_fail in E2 as E2'. destruct E2' as [-> Hnd].
              split_and!; [done..|].
              destruct (Os.mkdir fs1 (rev (x :: rq))) as [e2|fs2] eqn:E3.
              ** destruct (decide (e2 = ENOENT)) as [->|He2].
                 { rewrite E1', E2. eauto. }
                 rewrite Hnd. simpl. destruct e2; try done; eauto.
              ** unfold Pathlib.mkdir_flat in E2. by rewrite E3 in E2.
           ++ apply mkdir_flat_ok in E2 as [Hd2 Hg2].
              split_and!; [done|by intros r k ?; apply Hg2, Hg|].
              apply is_dir_true in Hd2 as Hs.
              pose proof (os_mkdir_EEXIST _ _ _ Hs) as E3. rewrite E3, Hd2. done.
      * cbn [Pathlib.mkdir_rev]. rewrite E.
        assert (Hif : (match e with
                       | ENOENT =>
                           if parents
                           then match Pathlib.mkdir_rev rq true true fs with
                                | (inl e0, fs1) => (inl e0, fs1)
                                | (inr _, fs1) =>
                                    Pathlib.mkdir_flat (rev (x :: rq)) true fs1
                                end
                           else (inl ENOENT, fs)
                       | _ => if true && Pathlib.is_dir fs (rev (x :: rq))
                              then (inr tt, fs) else (inl e, fs)
                       end)
                      = if Pathlib.is_dir fs (rev (x :: rq))
                        then (inr tt, fs) else (inl e, fs)) by (by destruct e).
        rewrite Hif. clear Hif.
        destruct (Pathlib.is_dir fs (rev (x :: rq))) eqn:B.
        -- split_and!; [done..|]. rewrite E, B. by destruct e.
        -- split_and!; [done..|]. rewrite E, B. destruct e; try done; eauto.
    + cbn [Pathlib.mkdir_rev]. rewrite E.
      destruct (os_mkdir_ok _ _ _ E) as (Hs & _ & Hg).
      split_and!; [by apply is_dir_true|done|].
      rewrite (os_mkdir_EEXIST _ _ _ Hs). by rewrite (proj2 (is_dir_true _ _) Hs).
Qed.

Lemma mkdir_outcome p parents fs :
  match Pathlib.mkdir p parents true fs with
  | (inr _, fs') =>
      Pathlib.is_dir fs' p = true ∧ grows fs fs' ∧
      Pathlib.mkdir p parents true fs' = (inr tt, fs')
  | (inl e, fs') =>
      Pathlib.is_dir fs' p = false ∧ grows fs fs' ∧
      ∃ e', Pathlib.mkdir p parents true fs' = (inl e', fs')
  end.
Proof.
  unfold Pathlib.mkdir. pose proof (mkdir_rev_outcome (rev p) parents fs) as H.
  by rewrite rev_involutive in H.
Qed.

End pathlib.

Section pathlib_files.
Implicit Types (p q r c : Path) (s x : string) (fs : FS).

(** On a path that resolves, [touch] changes nothing. *)
Lemma touch_existing p fs :
  Pathlib.exists_ fs p = true → Pathlib.touch p fs = (inr tt, fs).
Proof.
  intros [k Hk]%exists_true. unfold Pathlib.touch, Os.utime. by rewrite Hk.
Qed.

(** After a [touch] that worked there is something at the path, a regular
    file when nothing was there, and nothing else is gone. *)
Lemma touch_ok p fs u fs' :
  Pathlib.touch p fs = (inr u, fs') →
  Pathlib.exists_ fs' p = true ∧ grows fs fs' ∧
  (Pathlib.exists_ fs p = false → Os.stat fs' p = inr KFile ∧ fs' ≠ fs).
Proof.
  unfold Pathlib.touch, Os.utime.
  destruct (Os.stat fs p) as [e|k] eqn:Hs.
  - destruct (Os.open_creat fs p) as [e'|fs1] eqn:E; [done|].
    intros ?; simplify_eq. destruct (os_open_creat_ok _ _ _ E) as [Hf Hg].
    split_and!; [apply exists_true; eauto|done|].
    intros _. split; [done|]. intros ->. congruence.
  - intros ?; simplify_eq. split_and!; [apply exists_true; eauto|apply grows_refl|].
    intros [e He]%exists_false. congruence.
Qed.

(** A [touch] that fails has changed nothing. *)
Lemma touch_fail p fs e fs' : Pathlib.touch p fs = (inl e, fs') → fs' = fs.
Proof.
  unfold Pathlib.touch.
  destruct (Os.utime fs p); [|done].
  destruct (Os.open_creat fs p); intros; by simplify_eq.
Qed.

(** Under a directory a name that does not resolve is free. *)
Lemma stat_absent_child fs q x :
  Os.stat fs q = inr KDir → Pathlib.exists_ fs (q ++ [x]) = false →
  Os.stat fs (q ++ [x]) = inl ENOENT ∧ x ≠ "..".
Proof.
  intros [c Hc]%resolve_dir_stat [e He]%exists_false.
  rewrite os_stat_snoc, Hc in He |- *. case_decide as Hx; [done|]. split; [|done].
  destruct (resolve_dir_dir_at _ _ _ Hc) as [d Hd].
  rewrite (tree_stat_child _ _ _ _ Hd) in He |- *. by destruct (d !! x).
Qed.

Lemma touch_succeeds fs q x :
  Os.stat fs q = inr KDir → Os.stat fs (q ++ [x]) = inl ENOENT →
  ∃ fs', Pathlib.touch (q ++ [x]) fs = (inr tt, fs').
Proof.
  intros Hq Hs. unfold Pathlib.touch, Os.utime. rewrite Hs.
  destruct (os_open_creat_succeeds _ _ _ Hq Hs) as [fs' ->]. eauto.
Qed.

(** [unlink] of a regular file always works, changes the filesystem and
    frees the path. *)
Lemma unlink_file p missing_ok fs :
  Os.stat fs p = inr KFile →
  ∃ fs', Pathlib.unlink p missing_ok fs = (inr tt, fs') ∧ fs' ≠ fs ∧
         Pathlib.exists_ fs' p = false.
Proof.
  intros (fs' & E & Hne & He)%os_unlink_file. exists fs'.
  unfold Pathlib.unlink. rewrite E. split_and!; [done..|]. by apply exists_false.
Qed.

(** The root can be emptied but not removed. *)
Lemma rmtree_root fs : Shutil.rmtree [] fs = (inl EBUSY, ∅).
Proof. done. Qed.

(** An [rmtree] that worked has changed the filesystem and freed the
    path. *)
Lemma rmtree_ok path fs u fs' :
  Shutil.rmtree path fs = (inr u, fs') →
  fs' ≠ fs ∧ Pathlib.exists_ fs' path = false.
Proof.
  unfold Shutil.rmtree.
  destruct (Os.resolve fs path) as [e|c] eqn:Hr; [done|].
  destruct (Tree.stat fs c) as [e|[|]] eqn:Hc; [done..|].
  destruct (Os.rmdir _ path) as [e|fs2] eqn:E; [done|].
  intros ?; simplify_eq.
  apply tree_dir_at_stat in Hc as [d Hd].
  destruct (os_rmdir_ok _ _ _ E) as (a & Ha & Ha' & Hg & He).
  split; [|by apply exists_false].
  intros ->. apply (tree_stat_emptied_was _ _ _ _ _ Hd) in Ha. congruence.
Qed.

(** An [rmtree] that fails on a directory has emptied it.  What is left
    at the path, if anything, is that empty directory, and a second
    [rmtree] fails the same way and changes nothing more. *)
Lemma rmtree_fail path fs e fs1 :
  Os.stat fs path = inr KDir →
  Shutil.rmtree path fs = (inl e, fs1) →
  Os.stat fs1 path ≠ inr KFile ∧
  (Os.stat fs1 path = inr KDir → Shutil.rmtree path fs1 = (inl e, fs1)).
Proof.
  intros (c & Hr & Hc)%os_stat_resolve. unfold Shutil.rmtree at 1. rewrite Hr, Hc.
  destruct (Os.rmdir _ path) as [e'|fs2] eqn:E; [|done].
  intros ?; simplify_eq.
  apply tree_dir_at_stat in Hc as Hd. destruct Hd as [d Hd].
  set (fs1 := modify_dir fs c (λ _, ∅)) in *.
  assert (Hg : grows fs1 fs).
  { intros r k. apply (tree_stat_emptied_was _ _ _ _ _ Hd). }
  assert (Hc1 : Tree.stat fs1 c = inr KDir).
  { unfold fs1. rewrite (tree_stat_emptied_other _ _ _ _ Hd); [done|].
    intros y r' Heq. apply (f_equal length) in Heq.
    rewrite length_app in Heq. simpl in Heq. lia. }
  assert (Hres : ∀ k, Os.stat fs1 path = inr k →
                      Os.resolve fs1 path = inr c ∧ k = KDir).
  { intros k (c' & Hr' & Hk')%os_stat_resolve.
    pose proof (resolve_mono _ _ _ _ Hg Hr') as Hr2.
    rewrite Hr in Hr2. simplify_eq. split; [done|congruence]. }
  split.
  - intros H. by destruct (Hres _ H).
  - intros H. destruct (Hres _ H) as [Hr1 _].
    unfold Shutil.rmtree. rewrite Hr1, Hc1.
    assert (Hsame : modify_dir fs1 c (λ _, ∅) = fs1).
    { unfold fs1. by rewrite (emptied_twice _ _ _ Hd). }
    by rewrite Hsame, E.
Qed.

End pathlib_files.

(* ===================================================================== *)
(** * Paths without [".."] *)
(* ===================================================================== *)

(** On a path made of names only the system calls work on the address
    that the path spells out, and [Path.mkdir] and the rest can be followed
    component by component. *)

Section plain.
Implicit Types (p q r c : Path) (s x : string) (fs : FS).

Lemma plain_snoc q s : ".." ∉ (q ++ [s]) ↔ (".." ∉ q) ∧ s ≠ "..".
Proof.
  rewrite not_elem_of_app, not_elem_of_cons. split.
  - intros (? & ? & _). split; [done|congruence].
  - intros [? ?]. split_and!; [done|congruence|apply not_elem_of_nil].
Qed.

Lemma plain_rev (l : list string) : ".." ∉ (rev l) ↔ ".." ∉ l.
Proof. by rewrite !list_elem_of_In, <- in_rev. Qed.

Lemma plain_prefix r p : r `prefix_of` p → ".." ∉ p → ".." ∉ r.
Proof. intros [k ->]. rewrite not_elem_of_app. by intros [? _]. Qed.

Lemma plain_parent p : ".." ∉ p → ".." ∉ Pathlib.parent p.
Proof.
  destruct (path_cases p) as [->|(q & s & ->)]; [done|].
  rewrite parent_snoc, plain_snoc. by intros [? _].
Qed.

Lemma ordinary_name_plain x : ordinary_name x = true → x ≠ "..".
Proof.
  unfold ordinary_name. rewrite !andb_true_iff, bool_decide_eq_true.
  by intros [[(_ & _ & ?) _] _].
Qed.

Lemma ordinary_plain p : ordinary p = true → ".." ∉ p.
Proof.
  unfold ordinary. rewrite andb_true_iff, forallb_forall. intros [H _] Hin.
  apply list_elem_of_In, H, ordinary_name_plain in Hin. done.
Qed.

Lemma exists_plain fs p :
  ".." ∉ p →
  Pathlib.exists_ fs p = match Tree.stat fs p with inr _ => true | inl _ => false end.
Proof. intros Hp. unfold Pathlib.exists_. by rewrite os_stat_plain. Qed.

Lemma is_dir_plain fs p :
  ".." ∉ p →
  Pathlib.is_dir fs p = match Tree.stat fs p with inr KDir => true | _ => false end.
Proof. intros Hp. unfold Pathlib.is_dir. by rewrite os_stat_plain. Qed.

(** *** [Path.mkdir] *)

Lemma mkdir_flat_spec p exist_ok fs :
  ".." ∉ p →
  match Pathlib.mkdir_flat p exist_ok fs with
  | (inr _, fs') =>
      Tree.stat fs' p = inr KDir ∧ ∀ r, r ≠ p → Tree.stat fs' r = Tree.stat fs r
  | (inl _, fs') => fs' = fs
  end.
Proof.
  intros Hp. unfold Pathlib.mkdir_flat. rewrite (os_mkdir_plain _ _ Hp).
  destruct (Tree.mkdir fs p) as [e|fs'] eqn:E.
  - destruct e; try done;
      destruct (exist_ok && Pathlib.is_dir fs p) eqn:B; try done;
      apply andb_true_iff in B as [_ B%is_dir_true];
      rewrite (os_stat_plain _ _ Hp) in B; done.
  - split; [|intros r Hr]; rewrite (tree_mkdir_stat _ _ _ _ E).
    + by rewrite decide_True.
    + by rewrite decide_False.
Qed.

(** [Path.mkdir] never leaves a half-made chain behind: it fails before
    it creates anything, or it ends with a directory at [self] and has
    created nothing deeper than [self]. *)
Lemma mkdir_rev_spec rself parents exist_ok fs :
  ".." ∉ rself →
  match Pathlib.mkdir_rev rself parents exist_ok fs with
  | (inr _, fs') =>
      Tree.stat fs' (rev rself) = inr KDir ∧
      ∀ r, length rself < length r → Tree.stat fs' r = Tree.stat fs r
  | (inl _, fs') => fs' = fs
  end.
Proof.
  revert parents exist_ok fs.
  induction rself as [|s rq IH]; intros parents exist_ok fs Hpl.
  - by destruct parents, exist_ok.
  - assert (Hself : ".." ∉ (rev rq ++ [s])) by (by apply (plain_rev (s :: rq))).
    assert (Hrq : ".." ∉ rq) by (by apply not_elem_of_cons in Hpl as [_ ?]).
    destruct parents.
    2:{ rewrite mkdir_rev_flat.
        pose proof (mkdir_flat_spec (rev (s :: rq)) exist_ok fs Hself) as H.
        destruct (Pathlib.mkdir_flat _ _ _) as [[e|u] fs']; [done|].
        destruct H as [H1 H2]. split; [done|].
        intros r Hr. apply H2. intros ->. rewrite length_rev in Hr. lia. }
    cbn [Pathlib.mkdir_rev rev]. rewrite (os_mkdir_plain _ _ Hself).
    destruct (Tree.mkdir fs (rev rq ++ [s])) as [e|fs'] eqn:E.
    + destruct (decide (e = ENOENT)) as [->|Hne].
      * apply tree_mkdir_ENOENT in E as [Eq Es].
        specialize (IH true true fs Hrq).
        destruct (Pathlib.mkdir_rev rq true true fs) as [[e|u] fs1]; [done|].
        destruct IH as [IH1 IH2].
        assert (Es1 : Tree.stat fs1 (rev rq ++ [s]) = inl ENOENT).
        { rewrite IH2; [done|]. rewrite length_app, length_rev. simpl. lia. }
        destruct (tree_mkdir_succeeds _ _ _ IH1 Es1) as [fs2 E2].
        unfold Pathlib.mkdir_flat. rewrite (os_mkdir_plain _ _ Hself), E2.
        split; [|intros r Hr]; rewrite (tree_mkdir_stat _ _ _ _ E2).
        -- by rewrite decide_True.
        -- rewrite decide_False.
           2:{ intros ->. rewrite length_app, length_rev in Hr. simpl in Hr. lia. }
           apply IH2. simpl in Hr. lia.
      * destruct (exist_ok && Pathlib.is_dir fs (rev rq ++ [s])) eqn:B;
          destruct e; try done;
          apply andb_true_iff in B as [_ B%is_dir_true];
          rewrite (os_stat_plain _ _ Hself) in B; done.
    + split; [|intros r Hr]; rewrite (tree_mkdir_stat _ _ _ _ E).
      * by rewrite decide_True.
      * rewrite decide_False; [done|].
        intros ->. rewrite length_app, length_rev in Hr. simpl in Hr. lia.
Qed.

Lemma mkdir_spec p parents exist_ok fs :
  ".." ∉ p →
  match Pathlib.mkdir p parents exist_ok fs with
  | (inr _, fs') =>
      Tree.stat fs' p = inr KDir ∧
      ∀ r, length p < length r → Tree.stat fs' r = Tree.stat fs r
  | (inl _, fs') => fs' = fs
  end.
Proof.
  intros Hp%plain_rev. unfold Pathlib.mkdir.
  pose proof (mkdir_rev_spec (rev p) parents exist_ok fs Hp) as H.
  destruct (Pathlib.mkdir_rev _ _ _ _) as [[e|u] fs']; [done|].
  by rewrite rev_involutive, length_rev in H.
Qed.

(** With [parents=True], [Path.mkdir] succeeds on every path that fails
    to resolve with [ENOENT]. *)
Lemma mkdir_rev_succeeds rself exist_ok fs :
  ".." ∉ rself →
  Tree.stat fs (rev rself) = inl ENOENT →
  ∃ fs', Pathlib.mkdir_rev rself true exist_ok fs = (inr tt, fs').
Proof.
  revert exist_ok fs. induction rself as [|s rq IH]; intros exist_ok fs Hpl Hs; [done|].
  assert (Hself : ".." ∉ (rev rq ++ [s])) by (by apply (plain_rev (s :: rq))).
  assert (Hrq : ".." ∉ rq) by (by apply not_elem_of_cons in Hpl as [_ ?]).
  cbn [Pathlib.mkdir_rev rev]. simpl in Hs. rewrite (os_mkdir_plain _ _ Hself).
  destruct (tree_mkdir_on_free_name _ _ _ Hs) as [[fs' ->]| E]; [eauto|].
  rewrite E. apply tree_mkdir_ENOENT in E as [Eq _].
  destruct (IH true fs Hrq Eq) as [fs1 E1].
  pose proof (mkdir_rev_spec rq true true fs Hrq) as H. rewrite E1 in *.
  destruct H as [H1 H2].
  assert (Es1 : Tree.stat fs1 (rev rq ++ [s]) = inl ENOENT).
  { rewrite H2; [done|]. rewrite length_app, length_rev. simpl. lia. }
  destruct (tree_mkdir_succeeds _ _ _ H1 Es1) as [fs2 E2].
  unfold Pathlib.mkdir_flat. rewrite (os_mkdir_plain _ _ Hself), E2. eauto.
Qed.

Lemma mkdir_succeeds_parents p exist_ok fs :
  ".." ∉ p →
  Os.stat fs p = inl ENOENT →
  ∃ fs', Pathlib.mkdir p true exist_ok fs = (inr tt, fs').
Proof.
  intros Hp H. rewrite (os_stat_plain _ _ Hp) in H.
  apply mkdir_rev_succeeds; [by apply plain_rev|by rewrite rev_involutive].
Qed.

(** Where path resolution fails in a regular file, so does [os.mkdir]. *)
Lemma os_mkdir_ENOTDIR fs p : Os.stat fs p = inl ENOTDIR → Os.mkdir fs p = inl ENOTDIR.
Proof.
  intros Hp. destruct (Os.mkdir fs p) as [e|fs'] eqn:E.
  - destruct (os_mkdir_err _ _ _ E) as [[_ [k Hk]]|[_ He]]; congruence.
  - apply os_mkdir_ok in E as (_ & ? & _). congruence.
Qed.

(** The outcome of [Path.mkdir(parents, exist_ok=True)], read off [stat]. *)
Lemma mkdir_ok_iff p parents fs :
  ".." ∉ p →
  (∃ fs', Pathlib.mkdir p parents true fs = (inr tt, fs')) ↔
  Os.stat fs p = inr KDir ∨
  (Os.stat fs p = inl ENOENT ∧
   (parents = true ∨ Pathlib.is_dir fs (Pathlib.parent p) = true)).
Proof.
  intros Hpl. split.
  - intros [fs' E]. destruct (Os.stat fs p) as [e|k] eqn:Hp.
    + destruct (os_stat_errno _ _ _ Hp) as [->| ->].
      * right. split; [done|]. destruct parents; [by left|right].
        rewrite mkdir_noparents in E.
        destruct (path_cases p) as [->|(q & s & ->)]; [done|]. rewrite parent_snoc.
        destruct (Pathlib.is_dir fs q) eqn:Hq; [done|].
        destruct (mkdir_flat_no_parent fs q s true Hq) as [e E']. congruence.
      * apply os_mkdir_ENOTDIR in Hp as Hm. unfold Pathlib.mkdir in E.
        rewrite <- (rev_involutive p) in Hm, Hp.
        rewrite (mkdir_rev_first_err _ _ _ _ _ Hm) in E by done.
        unfold Pathlib.is_dir in E. by rewrite Hp in E.
    + apply os_mkdir_EEXIST in Hp as Hm. unfold Pathlib.mkdir in E.
      rewrite <- (rev_involutive p) in Hm, Hp.
      rewrite (mkdir_rev_first_err _ _ _ _ _ Hm) in E by done.
      unfold Pathlib.is_dir in E. rewrite Hp in E. destruct k; [done|by left].
  - intros [Hp|[Hp [->|Hq]]].
    + exists fs. by apply mkdir_existing_dir.
    + by apply mkdir_succeeds_parents.
    + destruct (path_cases p) as [->|(q & s & ->)]; [done|].
      rewrite parent_snoc in Hq. apply is_dir_true in Hq.
      destruct (os_mkdir_succeeds _ _ _ Hq Hp) as [fs' E]. exists fs'.
      unfold Pathlib.mkdir. apply mkdir_rev_first_ok. by rewrite rev_involutive.
Qed.

(** What [Path.mkdir] creates: every address holds what it held, except
    the prefixes of [self] that were missing and are directories now. *)
Lemma mkdir_flat_frame p exist_ok fs u fs' r :
  ".." ∉ p →
  Pathlib.mkdir_flat p exist_ok fs = (inr u, fs') →
  Tree.stat fs' r = Tree.stat fs r ∨
  (r = p ∧ Tree.stat fs r = inl ENOENT ∧ Tree.stat fs' r = inr KDir).
Proof.
  intros Hp. unfold Pathlib.mkdir_flat. rewrite (os_mkdir_plain _ _ Hp).
  destruct (Tree.mkdir fs p) as [e|fs1] eqn:E.
  - destruct e; destruct (exist_ok && Pathlib.is_dir fs p);
      intros; simplify_eq; by left.
  - intros ?; simplify_eq. rewrite (tree_mkdir_stat _ _ _ _ E).
    case_decide as Hr; [|by left]. subst r. right. split_and!; [done| |done].
    by eapply tree_mkdir_was_absent.
Qed.

Lemma mkdir_rev_frame rself parents exist_ok fs u fs' r :
  ".." ∉ rself →
  Pathlib.mkdir_rev rself parents exist_ok fs = (inr u, fs') →
  Tree.stat fs' r = Tree.stat fs r ∨
  (r `prefix_of` rev rself ∧ Tree.stat fs r = inl ENOENT ∧
   Tree.stat fs' r = inr KDir).
Proof.
  revert parents exist_ok fs u fs'.
  induction rself as [|s rq IH]; intros parents exist_ok fs u fs' Hpl E.
  - simpl in E. destruct exist_ok; simplify_eq/=; by left.
  - assert (Hself : ".." ∉ (rev rq ++ [s])) by (by apply (plain_rev (s :: rq))).
    assert (Hrq : ".." ∉ rq) by (by apply not_elem_of_cons in Hpl as [_ ?]).
    destruct parents.
    2:{ rewrite mkdir_rev_flat in E.
        destruct (mkdir_flat_frame _ _ _ _ _ r Hself E) as [?|(-> & ? & ?)];
          [by left|by right]. }
    cbn [Pathlib.mkdir_rev rev] in E. rewrite (os_mkdir_plain _ _ Hself) in E.
    destruct (Tree.mkdir fs (rev rq ++ [s])) as [e|fs0] eqn:Em.
    + destruct (decide (e = ENOENT)) as [->|Hne].
      * apply tree_mkdir_ENOENT in Em as [_ Es].
        destruct (Pathlib.mkdir_rev rq true true fs) as [[e|u1] fs1] eqn:E1; [done|].
        destruct (mkdir_flat_frame _ _ _ _ _ r Hself E) as [Hr|(-> & Hr1 & Hr2)].
        -- rewrite Hr. destruct (IH _ _ _ _ _ Hrq E1) as [?|(Hp & ? & ?)]; [by left|].
           right. split_and!; [|done..]. simpl. by apply prefix_app_r.
        -- right. by split_and!.
      * destruct e; try done;
          destruct (exist_ok && Pathlib.is_dir fs (rev rq ++ [s]));
          simplify_eq; by left.
    + simplify_eq. rewrite (tree_mkdir_stat _ _ _ _ Em).
      case_decide as Hr; [|by left]. subst r. right. split_and!; [done| |done].
      by eapply tree_mkdir_was_absent.
Qed.

Lemma mkdir_frame p parents exist_ok fs u fs' r :
  ".." ∉ p →
  Pathlib.mkdir p parents exist_ok fs = (inr u, fs') →
  Tree.stat fs' r = Tree.stat fs r ∨
  (r `prefix_of` p ∧ Tree.stat fs r = inl ENOENT ∧ Tree.stat fs' r = inr KDir).
Proof.
  unfold Pathlib.mkdir. intros Hp%plain_rev E.
  destruct (mkdir_rev_frame _ _ _ _ _ _ r Hp E) as [?|H]; [by left|].
  right. by rewrite rev_involutive in H.
Qed.

(** *** [Path.touch], [Path.unlink], [shutil.rmtree] *)

(** [touch] on a path that does not resolve: it fails before it changes
    anything, or it leaves a regular file there. *)
Lemma touch_spec p fs :
  ".." ∉ p →
  Pathlib.exists_ fs p = false →
  match Pathlib.touch p fs with
  | (inr _, fs') =>
      Tree.stat fs' p = inr KFile ∧
      ∀ r, ¬ p `prefix_of` r → Tree.stat fs' r = Tree.stat fs r
  | (inl _, fs') => fs' = fs
  end.
Proof.
  intros Hp [e He]%exists_false. unfold Pathlib.touch, Os.utime.
  rewrite He, (os_open_creat_plain _ _ Hp).
  destruct (Tree.open_creat fs p) as [e'|fs'] eqn:E; [done|].
  by apply tree_open_creat_stat.
Qed.



End plain.

(* ===================================================================== *)
(** * The state inspector *)
(* ===================================================================== *)

Section inspector.
Implicit Types (p q r : Path) (fs : FS).

Lemma get_current_state_stat fs p :
  get_current_state fs p =
    match Os.stat fs p with
    | inr KFile => FILE
    | inr KDir => DIRECTORY
    | inl _ => ABSENT
    end.
Proof.
  unfold get_current_state, Pathlib.exists_, Pathlib.is_dir.
  by destruct (Os.stat fs p) as [?|[|]].
Qed.

Lemma state_FILE fs p : get_current_state fs p = FILE ↔ Os.stat fs p = inr KFile.
Proof. rewrite get_current_state_stat. by destruct (Os.stat fs p) as [?|[|]]. Qed.

Lemma state_DIRECTORY fs p :
  get_current_state fs p = DIRECTORY ↔ Os.stat fs p = inr KDir.
Proof. rewrite get_current_state_stat. by destruct (Os.stat fs p) as [?|[|]]. Qed.

Lemma state_ABSENT fs p :
  get_current_state fs p = ABSENT ↔ Pathlib.exists_ fs p = false.
Proof.
  rewrite get_current_state_stat. unfold Pathlib.exists_.
  by destruct (Os.stat fs p) as [?|[|]].
Qed.


Lemma get_current_state_plain fs p :
  ".." ∉ p →
  get_current_state fs p =
    match Tree.stat fs p with
    | inr KFile => FILE
    | inr KDir => DIRECTORY
    | inl _ => ABSENT
    end.
Proof. intros Hp. by rewrite get_current_state_stat, os_stat_plain. Qed.

(** Nothing exists below a path that does not exist. *)
Lemma below_absent fs p r :
  Pathlib.exists_ fs p = false → Pathlib.exists_ fs (p ++ r) = false.
Proof.
  intros Hp. destruct r as [|x r]; [by rewrite app_nil_r|].
  destruct (Pathlib.exists_ fs (p ++ x :: r)) eqn:Hex; [|done].
  apply exists_true in Hex as [k Hk]. apply os_stat_ancestor in Hk; [|done].
  apply exists_false in Hp as [e He]. congruence.
Qed.

(** Nothing exists below a regular file. *)
Lemma below_file fs p r :
  Os.stat fs p = inr KFile → r ≠ [] → Pathlib.exists_ fs (p ++ r) = false.
Proof.
  intros Hp Hr. destruct (Pathlib.exists_ fs (p ++ r)) eqn:Hex; [|done].
  apply exists_true in Hex as [k Hk]. apply os_stat_ancestor in Hk; [|done].
  congruence.
Qed.

End inspector.

(* ===================================================================== *)
(** * The three operations, branch by branch *)
(* ===================================================================== *)

Section operations.
Implicit Types (p q r : Path) (fs : FS) (module : AnsibleModule).

(** *** Reading the dictionaries *)

Lemma changed_finish (result : Result) b diff :
  finish result b diff !! "changed" = Some (VBool b).
Proof. unfold finish. by rewrite lookup_insert_ne, lookup_insert_eq. Qed.

Lemma diff_finish (result : Result) b diff :
  finish result b diff !! "diff" = Some (VDiff diff).
Proof. unfold finish. by rewrite lookup_insert_eq. Qed.

Lemma changed_check_mode_result diff p :
  get_check_mode_result diff p !! "changed" = Some (VBool true).
Proof. unfold get_check_mode_result. by rewrite lookup_insert_eq. Qed.

(** *** On a path that is already there (or already gone) *)

Lemma ensure_file_on_file p nested module fs :
  get_current_state fs p = FILE →
  ensure_file p nested module fs
  = (Returned (finish {["path" := VPath p]} false (init_diff p FILE FILE)), fs).
Proof. intros H. unfold ensure_file. by rewrite H. Qed.

Lemma ensure_file_on_directory p nested module fs :
  get_current_state fs p = DIRECTORY →
  ensure_file p nested module fs = (fail_json CreateFile p PathIsDirectory, fs).
Proof. intros H. unfold ensure_file. by rewrite H. Qed.

Lemma ensure_directory_on_existing p nested module fs :
  get_current_state fs p ≠ ABSENT →
  ensure_directory p nested module fs
  = (Returned (finish {["path" := VPath p]} false
                 (init_diff p DIRECTORY (get_current_state fs p))), fs).
Proof. intros H. unfold ensure_directory. by destruct (get_current_state fs p). Qed.

Lemma ensure_absent_on_absent p module fs :
  get_current_state fs p = ABSENT →
  ensure_absent p module fs
  = (Returned (finish {["path" := VPath p]} false (init_diff p ABSENT ABSENT)), fs).
Proof. intros H. unfold ensure_absent. by rewrite H. Qed.

(** *** Check mode *)

Lemma ensure_file_check p nested module fs :
  check_mode module = true → get_current_state fs p = ABSENT →
  ensure_file p nested module fs
  = (Returned (get_check_mode_result (init_diff p FILE ABSENT) p), fs).
Proof. intros Hc H. unfold ensure_file. by rewrite H, Hc. Qed.

Lemma ensure_directory_check p nested module fs :
  check_mode module = true → get_current_state fs p = ABSENT →
  ensure_directory p nested module fs
  = (Returned (get_check_mode_result (init_diff p DIRECTORY ABSENT) p), fs).
Proof. intros Hc H. unfold ensure_directory. by rewrite H, Hc. Qed.

Lemma ensure_absent_check p module fs :
  check_mode module = true → get_current_state fs p ≠ ABSENT →
  ensure_absent p module fs
  = (Returned (get_check_mode_result
                 (init_diff p ABSENT (get_current_state fs p)) p), fs).
Proof.
  intros Hc H. unfold ensure_absent.
  destruct (get_current_state fs p); by rewrite ?Hc.
Qed.

(** *** Normal mode, where something has to be done *)

(** An absent path is not the root. *)
Lemma absent_not_root fs p :
  get_current_state fs p = ABSENT → ∃ q s, p = q ++ [s].
Proof. destruct (path_cases p) as [->|?]; [done|auto]. Qed.

(** On every path: a result says that the path is there now and that the
    filesystem has changed; a failure carries the error of the system. *)
Lemma ensure_file_normal p nested module fs :
  check_mode module = false → get_current_state fs p = ABSENT →
  match ensure_file p nested module fs with
  | (Returned res, fs') =>
      res = finish {["path" := VPath p]} true (init_diff p FILE ABSENT) ∧
      Pathlib.exists_ fs' p = true ∧ fs' ≠ fs
  | (Failed msg, fs') => ∃ e, msg = mkMsg CreateFile p (SystemError e)
  end.
Proof.
  intros Hc H. unfold ensure_file. rewrite H, Hc.
  destruct (Pathlib.mkdir _ nested true fs) as [[e|u] fs1] eqn:Em.
  { unfold fail_json. eauto. }
  destruct (Pathlib.touch p fs1) as [[e|u'] fs2] eqn:Et.
  { unfold fail_json. eauto. }
  apply touch_ok in Et as (Hex & _ & _).
  split_and!; [done..|]. intros ->. apply state_ABSENT in H. congruence.
Qed.

Lemma ensure_directory_normal p nested module fs :
  check_mode module = false → get_current_state fs p = ABSENT →
  match ensure_directory p nested module fs with
  | (Returned res, fs') =>
      res = finish {["path" := VPath p]} true (init_diff p DIRECTORY ABSENT) ∧
      Os.stat fs' p = inr KDir ∧ fs' ≠ fs
  | (Failed msg, fs') =>
      ∃ e, msg = mkMsg CreateDirectory p (SystemError e) ∧
           Pathlib.mkdir p nested true fs = (inl e, fs')
  end.
Proof.
  intros Hc H. unfold ensure_directory. rewrite H, Hc.
  pose proof (mkdir_outcome p nested fs) as Hm.
  destruct (Pathlib.mkdir p nested true fs) as [[e|u] fs1].
  { unfold fail_json. eauto. }
  destruct Hm as (Hd%is_dir_true & _ & _). split_and!; [done..|].
  intros ->. apply state_ABSENT, exists_false in H as [e He]. congruence.
Qed.

Lemma ensure_absent_normal_file p module fs :
  check_mode module = false → get_current_state fs p = FILE →
  ∃ fs', ensure_absent p module fs
         = (Returned (finish {["path" := VPath p]} true (init_diff p ABSENT FILE)), fs')
         ∧ fs' ≠ fs ∧ Pathlib.exists_ fs' p = false.
Proof.
  intros Hc H. unfold ensure_absent. rewrite H, Hc.
  apply state_FILE in H.
  destruct (unlink_file p true fs H) as (fs' & -> & Hne & Hs). eauto.
Qed.

Lemma ensure_absent_normal_directory p module fs :
  check_mode module = false → get_current_state fs p = DIRECTORY →
  match ensure_absent p module fs with
  | (Returned res, fs') =>
      res = finish {["path" := VPath p]} true (init_diff p ABSENT DIRECTORY) ∧
      fs' ≠ fs ∧ Pathlib.exists_ fs' p = false
  | (Failed msg, fs') =>
      ∃ e, msg = mkMsg DeleteDirectory p (SystemError e) ∧
           Shutil.rmtree p fs = (inl e, fs')
  end.
Proof.
  intros Hc H. unfold ensure_absent. rewrite H, Hc.
  destruct (Shutil.rmtree p fs) as [[e|u] fs1] eqn:E.
  { unfold fail_json. eauto. }
  by apply rmtree_ok in E as [? ?].
Qed.


(** On a path without [".."]: a creation leaves exactly what was asked
    for, and a creation that fails has changed nothing. *)
Lemma ensure_file_normal_plain p nested module fs :
  ".." ∉ p →
  check_mode module = false → get_current_state fs p = ABSENT →
  match ensure_file p nested module fs with
  | (Returned res, fs') =>
      res = finish {["path" := VPath p]} true (init_diff p FILE ABSENT) ∧
      Os.stat fs' p = inr KFile
  | (Failed msg, fs') =>
      fs' = fs ∧ ∃ e, msg = mkMsg CreateFile p (SystemError e) ∧
        Pathlib.mkdir (Pathlib.parent p) nested true fs = (inl e, fs)
  end.
Proof.
  intros Hpl Hc H. unfold ensure_file. rewrite H, Hc.
  destruct (absent_not_root _ _ H) as (q & s & ->). rewrite parent_snoc.
  apply plain_snoc in Hpl as Hq0. destruct Hq0 as [Hplq _].
  apply state_ABSENT in H.
  pose proof (mkdir_spec q nested true fs Hplq) as Hm.
  destruct (Pathlib.mkdir q nested true fs) as [[e|u] fs1].
  { subst fs1. split; [done|]. by exists e. }
  destruct Hm as [Hq Hframe].
  assert (Hs : Tree.stat fs1 (q ++ [s]) = Tree.stat fs (q ++ [s])).
  { apply Hframe. rewrite length_app. simpl. lia. }
  assert (Hs1 : Tree.stat fs1 (q ++ [s]) = inl ENOENT).
  { apply exists_false in H as [e He]. rewrite (os_stat_plain _ _ Hpl) in He.
    rewrite He in Hs. apply tree_dir_at_stat in Hq as [d Hd].
    rewrite (tree_stat_child _ _ _ _ Hd) in Hs |- *. by destruct (d !! s). }
  rewrite <- (os_stat_plain _ _ Hplq) in Hq.
  rewrite <- (os_stat_plain _ _ Hpl) in Hs1.
  destruct (touch_succeeds _ _ _ Hq Hs1) as [fs2 Ht].
  pose proof (touch_spec (q ++ [s]) fs1 Hpl) as Hts. rewrite Ht in *.
  split; [done|]. rewrite (os_stat_plain _ _ Hpl).
  apply Hts. apply exists_false. eauto.
Qed.

Lemma ensure_directory_normal_plain p nested module fs :
  ".." ∉ p →
  check_mode module = false → get_current_state fs p = ABSENT →
  match ensure_directory p nested module fs with
  | (Returned res, fs') =>
      res = finish {["path" := VPath p]} true (init_diff p DIRECTORY ABSENT) ∧
      Os.stat fs' p = inr KDir
  | (Failed msg, fs') =>
      fs' = fs ∧ ∃ e, msg = mkMsg CreateDirectory p (SystemError e) ∧
        Pathlib.mkdir p nested true fs = (inl e, fs)
  end.
Proof.
  intros Hpl Hc H. unfold ensure_directory. rewrite H, Hc.
  pose proof (mkdir_spec p nested true fs Hpl) as Hm.
  destruct (Pathlib.mkdir p nested true fs) as [[e|u] fs1].
  - subst fs1. split; [done|]. by exists e.
  - destruct Hm as [Hm _]. by rewrite (os_stat_plain _ _ Hpl).
Qed.

End operations.

(* ===================================================================== *)
(** * The dispatcher, case by case *)
(* ===================================================================== *)

Section dispatcher.
Implicit Types (fs : FS) (module : AnsibleModule).

Lemma value_inj s1 s2 : value s1 = value s2 → s1 = s2.
Proof. by destruct s1, s2. Qed.

Lemma elem_of_to_choices (st : string) : st ∈ to_choices ↔ ∃ s, st = value s.
Proof.
  unfold to_choices. rewrite list_elem_of_fmap. split.
  - intros (s & -> & _). eauto.
  - intros (s & ->). exists s. split; [done|]. destruct s; set_solver.
Qed.

Lemma run_file module fs :
  state (params module) = value FILE →
  run_proper_handler module fs
  = ensure_file (path (params module)) (nested (params module)) module fs.
Proof. intros H. unfold run_proper_handler. by rewrite H. Qed.

Lemma run_directory module fs :
  state (params module) = value DIRECTORY →
  run_proper_handler module fs
  = ensure_directory (path (params module)) (nested (params module)) module fs.
Proof. intros H. unfold run_proper_handler. by rewrite H. Qed.

Lemma run_absent module fs :
  state (params module) = value ABSENT →
  run_proper_handler module fs = ensure_absent (path (params module)) module fs.
Proof. intros H. unfold run_proper_handler. by rewrite H. Qed.

Lemma run_other module fs :
  state (params module) ∉ to_choices →
  run_proper_handler module fs = (Returned {["changed" := VBool false]}, fs).
Proof.
  intros H. unfold run_proper_handler.
  repeat case_decide; try done; exfalso; apply H, elem_of_to_choices; eauto.
Qed.

End dispatcher.

(* ===================================================================== *)
(** * Properties of the reconciler *)
(* ===================================================================== *)

(** ** The diff *)

(** C7. The diff built by [init_diff] carries the path on both sides.  When
    the current state is the desired one neither side has a ["state"] key;
    otherwise [before] holds the value of the current state and [after] the
    value of the desired one.  So ["state"] is on one side exactly when it is
    on the other. *)
Theorem init_diff_contract (path : Path) (next_state current_state : State) :
  let diff := init_diff path next_state current_state in
  before diff !! "path" = Some (APath path) ∧
  after diff !! "path" = Some (APath path) ∧
  (if decide (current_state = next_state)
   then before diff !! "state" = None ∧ after diff !! "state" = None
   else before diff !! "state" = Some (AStr (value current_state)) ∧
        after diff !! "state" = Some (AStr (value next_state))) ∧
  (is_Some (before diff !! "state") ↔ is_Some (after diff !! "state")).
Proof.
  unfold init_diff.
  destruct (decide (current_state = next_state)) as [->|Hne].
  - rewrite decide_False by (intros H; by apply H). simpl.
    repeat split; try done; by intros [? ?].
  - rewrite decide_True by done. simpl.
    rewrite !lookup_insert_eq, !lookup_insert_ne by done.
    rewrite !lookup_singleton_eq. repeat split; eauto.
Qed.

(** ** The dispatcher *)

(** C8. [run_proper_handler] runs the one operation named by the [state]
    parameter and hands back its outcome and its filesystem untouched; the
    three names are distinct, so at most one applies.  For any other string
    no operation runs: the default result [{changed: False}] comes back and
    the filesystem is as it was. *)
Theorem run_proper_handler_dispatch (module : AnsibleModule) (fs : FS) :
  let p := params module in
  (state p = "file" →
     run_proper_handler module fs = ensure_file (path p) (nested p) module fs) ∧
  (state p = "directory" →
     run_proper_handler module fs = ensure_directory (path p) (nested p) module fs) ∧
  (state p = "absent" →
     run_proper_handler module fs = ensure_absent (path p) module fs) ∧
  (state p ∉ ["file"; "directory"; "absent"] →
     run_proper_handler module fs = (Returned {["changed" := VBool false]}, fs)).
Proof.
  simpl. split_and!.
  - apply run_file.
  - apply run_directory.
  - apply run_absent.
  - apply run_other.
Qed.

Lemma run_proper_handler_dispatch_witness :
  run_proper_handler (normal (mkParams "directory" ["srv"; "www"] false)) fs_sample
  = ensure_directory ["srv"; "www"] false
      (normal (mkParams "directory" ["srv"; "www"] false)) fs_sample
  ∧ run_proper_handler (normal (mkParams "link" ["srv"; "www"] false)) fs_sample
  = (Returned {["changed" := VBool false]}, fs_sample).
Proof.
  split.
  - apply (run_proper_handler_dispatch
             (normal (mkParams "directory" ["srv"; "www"] false)) fs_sample).
    reflexivity.
  - apply (run_proper_handler_dispatch
             (normal (mkParams "link" ["srv"; "www"] false)) fs_sample).
    vm_compute. intros H. by repeat (inversion_clear H as [|? ? ? H0]; rename H0 into H).
Defined.

(** C10. With [state=absent] the [nested] parameter makes no difference:
    [ensure_absent] never reads it, so the outcome and the filesystem left
    behind are the same for both values, in check mode and in normal mode. *)
Theorem absent_ignores_nested (path : Path) (check : bool) (n1 n2 : bool) (fs : FS) :
  run_proper_handler (mkModule (mkParams "absent" path n1) check) fs
  = run_proper_handler (mkModule (mkParams "absent" path n2) check) fs
  ∧ ∀ st, ensure_absent path (mkModule (mkParams st path n1) check) fs
          = ensure_absent path (mkModule (mkParams st path n2) check) fs.
Proof. split; [|intros st]; reflexivity. Qed.

(** ** Conflicts with what is on disk *)

(** C5. On a path that is a directory [ensure_file] fails: no result is
    returned, the message says the path is a directory, and the filesystem
    is as it was.  This holds in check mode and in normal mode. *)
Theorem ensure_file_on_directory_fails
    (path : Path) (nested : bool) (module : AnsibleModule) (fs : FS) :
  get_current_state fs path = DIRECTORY →
  ensure_file path nested module fs
  = (Failed (mkMsg CreateFile path PathIsDirectory), fs).
Proof. apply ensure_file_on_directory. Qed.

Lemma ensure_file_on_directory_fails_witness :
  ensure_file ["srv"; "www"] true (normal (mkParams "file" ["srv"; "www"] true)) fs_sample
  = (Failed (mkMsg CreateFile ["srv"; "www"] PathIsDirectory), fs_sample).
Proof. apply ensure_file_on_directory_fails. reflexivity. Defined.

(** C6. On a path that is a regular file a normal-mode [ensure_directory]
    returns a result with [changed] false and leaves the filesystem as it
    was; unlike [ensure_file] on a directory it does not fail. *)
Theorem ensure_directory_on_file_unchanged
    (path : Path) (nested : bool) (module : AnsibleModule) (fs : FS) :
  check_mode module = false →
  get_current_state fs path = FILE →
  ∃ r, ensure_directory path nested module fs = (Returned r, fs) ∧
       r !! "changed" = Some (VBool false).
Proof.
  intros _ H. rewrite ensure_directory_on_existing by congruence.
  eexists; split; [done|]. apply changed_finish.
Qed.

Lemma ensure_directory_on_file_unchanged_witness :
  ∃ r, ensure_directory ["etc"; "motd"] false
         (normal (mkParams "directory" ["etc"; "motd"] false)) fs_sample
       = (Returned r, fs_sample) ∧ r !! "changed" = Some (VBool false).
Proof. apply ensure_directory_on_file_unchanged; reflexivity. Defined.

(** C9. On a path that is a regular file the result of [ensure_directory]
    has [changed] false although its diff has a ["state"] on both sides,
    ["file"] before and ["directory"] after: an unchanged result does not
    mean an empty diff. *)
Theorem ensure_directory_on_file_diff
    (path : Path) (nested : bool) (module : AnsibleModule) (fs : FS) :
  get_current_state fs path = FILE →
  ∃ r diff, fst (ensure_directory path nested module fs) = Returned r ∧
            r !! "changed" = Some (VBool false) ∧
            r !! "diff" = Some (VDiff diff) ∧
            before diff !! "state" = Some (AStr "file") ∧
            after diff !! "state" = Some (AStr "directory").
Proof.
  intros H. rewrite ensure_directory_on_existing by congruence. rewrite H.
  eexists _, _. split_and!; [done|apply changed_finish|apply diff_finish|done..].
Qed.

Lemma ensure_directory_on_file_diff_witness :
  ∃ r diff, fst (ensure_directory ["etc"; "motd"] true
                   (dry_run (mkParams "directory" ["etc"; "motd"] true)) fs_sample)
            = Returned r ∧
            r !! "changed" = Some (VBool false) ∧
            r !! "diff" = Some (VDiff diff) ∧
            before diff !! "state" = Some (AStr "file") ∧
            after diff !! "state" = Some (AStr "directory").
Proof. apply ensure_directory_on_file_diff. reflexivity. Defined.


(** ** Convergence *)

Section convergence.
Implicit Types (p : Path) (fs : FS) (module : AnsibleModule).

Lemma ensure_file_converges p nested module fs res fs' :
  ".." ∉ p →
  check_mode module = false →
  ensure_file p nested module fs = (Returned res, fs') →
  get_current_state fs' p = FILE.
Proof.
  intros Hpl Hc E. destruct (get_current_state fs p) eqn:Hs.
  - rewrite (ensure_file_on_file _ _ _ _ Hs) in E. by simplify_eq.
  - by rewrite (ensure_file_on_directory _ _ _ _ Hs) in E.
  - pose proof (ensure_file_normal_plain p nested module fs Hpl Hc Hs) as H.
    rewrite E in H. apply state_FILE, H.
Qed.


Lemma ensure_directory_converges p nested module fs res fs' :
  check_mode module = false →
  get_current_state fs p ≠ FILE →
  ensure_directory p nested module fs = (Returned res, fs') →
  get_current_state fs' p = DIRECTORY.
Proof.
  intros Hc Hnf E. destruct (get_current_state fs p) eqn:Hs; [done| |].
  - rewrite ensure_directory_on_existing in E by congruence. by simplify_eq.
  - pose proof (ensure_directory_normal p nested module fs Hc Hs) as H.
    rewrite E in H. apply state_DIRECTORY, H.
Qed.



End convergence.




(** ** Idempotence *)




(** ** Check mode *)

Section check_mode.
Implicit Types (p : Path) (fs : FS) (module : AnsibleModule).

Lemma ensure_file_check_pure p nested module fs :
  check_mode module = true → snd (ensure_file p nested module fs) = fs.
Proof.
  intros Hc. unfold ensure_file.
  destruct (get_current_state fs p); by rewrite ?Hc.
Qed.

Lemma ensure_directory_check_pure p nested module fs :
  check_mode module = true → snd (ensure_directory p nested module fs) = fs.
Proof.
  intros Hc. unfold ensure_directory.
  destruct (get_current_state fs p); by rewrite ?Hc.
Qed.

Lemma ensure_absent_check_pure p module fs :
  check_mode module = true → snd (ensure_absent p module fs) = fs.
Proof.
  intros Hc. unfold ensure_absent.
  destruct (get_current_state fs p); by rewrite ?Hc.
Qed.

Lemma changed_of_check_mode_result diff p :
  changed_of (Returned (get_check_mode_result diff p)) = Some true.
Proof. unfold changed_of. by rewrite changed_check_mode_result. Qed.

(** In normal mode nothing is touched outside the branches that check
    mode short-circuits. *)
Lemma ensure_file_mutates p nested module fs :
  snd (ensure_file p nested module fs) ≠ fs → get_current_state fs p = ABSENT.
Proof.
  intros H. destruct (get_current_state fs p) eqn:Hs; [| |done]; destruct H.
  - by rewrite ensure_file_on_file.
  - by rewrite ensure_file_on_directory.
Qed.

Lemma ensure_directory_mutates p nested module fs :
  snd (ensure_directory p nested module fs) ≠ fs → get_current_state fs p = ABSENT.
Proof.
  intros H. destruct (decide (get_current_state fs p = ABSENT)) as [|Hs]; [done|].
  destruct H. by rewrite ensure_directory_on_existing.
Qed.

Lemma ensure_absent_mutates p module fs :
  snd (ensure_absent p module fs) ≠ fs → get_current_state fs p ≠ ABSENT.
Proof. intros H Hs. destruct H. by rewrite ensure_absent_on_absent. Qed.

End check_mode.

(** C4. In check mode no operation changes the filesystem.  In each branch
    that mutates in normal mode (an absent path for [ensure_file] and
    [ensure_directory], a path that exists for [ensure_absent]) the check-mode
    call returns [get_check_mode_result], whose [changed] is true; in
    particular, whenever the normal-mode call [module'] would leave a
    different filesystem, the check-mode call [module] reports a change.
    Nothing is verified on the way: there is a request for which check mode
    reports a change and the normal-mode call fails. *)
Theorem check_mode_purity
    (path : Path) (nested : bool) (module module' : AnsibleModule) (fs : FS) :
  check_mode module = true →
  check_mode module' = false →
  (snd (ensure_file path nested module fs) = fs ∧
   snd (ensure_directory path nested module fs) = fs ∧
   snd (ensure_absent path module fs) = fs) ∧
  (get_current_state fs path = ABSENT →
     ensure_file path nested module fs
     = (Returned (get_check_mode_result (init_diff path FILE ABSENT) path), fs)) ∧
  (get_current_state fs path = ABSENT →
     ensure_directory path nested module fs
     = (Returned (get_check_mode_result (init_diff path DIRECTORY ABSENT) path), fs)) ∧
  (get_current_state fs path ≠ ABSENT →
     ensure_absent path module fs
     = (Returned (get_check_mode_result
                    (init_diff path ABSENT (get_current_state fs path)) path), fs)) ∧
  (snd (ensure_file path nested module' fs) ≠ fs →
     changed_of (fst (ensure_file path nested module fs)) = Some true) ∧
  (snd (ensure_directory path nested module' fs) ≠ fs →
     changed_of (fst (ensure_directory path nested module fs)) = Some true) ∧
  (snd (ensure_absent path module' fs) ≠ fs →
     changed_of (fst (ensure_absent path module fs)) = Some true) ∧
  (∃ p fs0, changed_of (fst (ensure_file p false module fs0)) = Some true ∧
            ∃ msg, ensure_file p false module' fs0 = (Failed msg, fs0)).
Proof.
  intros Hc Hc'. split_and!.
  - by apply ensure_file_check_pure.
  - by apply ensure_directory_check_pure.
  - by apply ensure_absent_check_pure.
  - by apply ensure_file_check.
  - by apply ensure_directory_check.
  - by apply ensure_absent_check.
  - intros H%ensure_file_mutates.
    rewrite (ensure_file_check _ _ _ _ Hc H). apply changed_of_check_mode_result.
  - intros H%ensure_directory_mutates.
    rewrite (ensure_directory_check _ _ _ _ Hc H). apply changed_of_check_mode_result.
  - intros H%ensure_absent_mutates.
    rewrite (ensure_absent_check _ _ _ Hc H). apply changed_of_check_mode_result.
  - exists ["nest1"; "nest2"; "file"], fs_empty. split.
    + rewrite ensure_file_check by done. apply changed_of_check_mode_result.
    + destruct module' as [prm cm]. simpl in Hc'. subst cm.
      eexists. vm_compute. reflexivity.
Qed.

Lemma check_mode_purity_witness :
  let p := ["nest1"; "nest2"; "file"] in
  let module := dry_run (mkParams "file" p false) in
  let module' := normal (mkParams "file" p false) in
  snd (ensure_file p false module fs_empty) = fs_empty ∧
  changed_of (fst (ensure_file p false module fs_empty)) = Some true ∧
  fst (ensure_file p false module' fs_empty)
  = Failed (mkMsg CreateFile p (SystemError ENOENT)).
Proof.
  intros p module module'.
  pose proof (check_mode_purity p false module module' fs_empty eq_refl eq_refl)
    as ((Hpure & _ & _) & Hfile & _).
  split; [exact Hpure|]. split.
  - rewrite Hfile by reflexivity. reflexivity.
  - vm_compute. reflexivity.
Defined.

(** ** Missing parents and the [nested] parameter *)

Section nested.
Implicit Types (p q r : Path) (s : string) (fs : FS) (module : AnsibleModule).

(** A proper ancestor is missing exactly when the parent is missing. *)
Lemma missing_segment_parent fs p :
  (∃ q r, p = q ++ r ∧ r ≠ [] ∧ Pathlib.exists_ fs q = false) ↔
  p ≠ [] ∧ Pathlib.exists_ fs (Pathlib.parent p) = false.
Proof.
  split.
  - intros (q & r & -> & Hr & Hq). split; [by destruct q, r|].
    destruct (path_cases r) as [->|(r' & s & ->)]; [done|].
    rewrite (assoc_L (++)), parent_snoc. by apply below_absent.
  - intros [Hp Hq]. destruct (path_cases p) as [->|(q & s & ->)]; [done|].
    rewrite parent_snoc in Hq. by exists q, [s].
Qed.

(** A path without [".."] that does not resolve, with no regular file
    among its proper ancestors, fails with [ENOENT]. *)
Lemma stat_absent_ENOENT fs p :
  ".." ∉ p →
  Pathlib.exists_ fs p = false →
  (∀ q r, p = q ++ r → r ≠ [] → Os.stat fs q ≠ inr KFile) →
  Os.stat fs p = inl ENOENT.
Proof.
  unfold Pathlib.exists_. intros Hpl Hex Hnf.
  destruct (Os.stat fs p) as [e|k] eqn:E; [|done].
  destruct (os_stat_errno _ _ _ E) as [->| ->]; [done|].
  rewrite (os_stat_plain _ _ Hpl) in E.
  destruct (tree_stat_ENOTDIR _ _ E) as (q & r & -> & Hr & Hq).
  destruct (Hnf q r); [done..|].
  rewrite os_stat_plain; [done|]. by apply not_elem_of_app in Hpl as [? _].
Qed.

Lemma ensure_directory_flat_fails fs q s module :
  check_mode module = false →
  Pathlib.is_dir fs q = false →
  ∃ msg, ensure_directory (q ++ [s]) false module fs = (Failed msg, fs).
Proof.
  intros Hc Hq. pose proof (absent_below _ _ s Hq) as Hp%state_ABSENT.
  unfold ensure_directory. rewrite Hp, Hc, mkdir_noparents.
  destruct (mkdir_flat_no_parent _ _ s true Hq) as [e ->].
  unfold fail_json. eauto.
Qed.

Lemma ensure_file_flat_fails fs q s s' module :
  check_mode module = false →
  Pathlib.is_dir fs q = false →
  ∃ msg, ensure_file (q ++ [s] ++ [s']) false module fs = (Failed msg, fs).
Proof.
  intros Hc Hq. rewrite (assoc_L (++)).
  pose proof (absent_below _ _ s Hq) as Hp.
  assert (Hnd : Pathlib.is_dir fs (q ++ [s]) = false).
  { unfold Pathlib.is_dir. apply exists_false in Hp as [e' ->]. done. }
  pose proof (absent_below _ _ s' Hnd) as Hp'%state_ABSENT.
  unfold ensure_file. rewrite Hp', Hc, parent_snoc, mkdir_noparents.
  destruct (mkdir_flat_no_parent _ _ s true Hq) as [e ->].
  unfold fail_json. eauto.
Qed.

(** With [nested], an absent directory is created whenever no regular
    file is in the way. *)
Lemma ensure_directory_nested_succeeds fs p module :
  ".." ∉ p →
  check_mode module = false →
  Os.stat fs p = inl ENOENT →
  ∃ fs', ensure_directory p true module fs
         = (Returned (finish {["path" := VPath p]} true
                        (init_diff p DIRECTORY ABSENT)), fs')
         ∧ Os.stat fs' p = inr KDir.
Proof.
  intros Hpl Hc Hp.
  assert (Hs : get_current_state fs p = ABSENT).
  { apply state_ABSENT, exists_false. eauto. }
  pose proof (ensure_directory_normal_plain p true module fs Hpl Hc Hs) as H.
  destruct (ensure_directory p true module fs) as [[r|msg] fs'].
  - destruct H as [-> H]. eauto.
  - destruct H as (_ & e & _ & E).
    destruct (mkdir_succeeds_parents p true fs Hpl Hp) as [fs1 E1]. congruence.
Qed.

(** When [stat] of a child says [ENOENT], the parent is a directory or is
    itself missing with [ENOENT]. *)
Lemma stat_ENOENT_parent fs q s :
  ".." ∉ (q ++ [s]) →
  Os.stat fs (q ++ [s]) = inl ENOENT →
  Os.stat fs q = inr KDir ∨ Os.stat fs q = inl ENOENT.
Proof.
  intros Hpl. apply plain_snoc in Hpl as Hq. destruct Hq as [Hq _].
  rewrite !os_stat_plain by done. intros Hs.
  destruct (dir_at fs q) as [e|d] eqn:Hd.
  - rewrite (tree_stat_child_no_parent _ _ _ _ Hd) in Hs. simplify_eq. right.
    unfold dir_at, Tree.stat in *.
    by destruct (lookup_path fs q) as [?|[|?]]; simplify_eq.
  - left. apply tree_dir_at_stat. eauto.
Qed.

Lemma ensure_file_nested_succeeds fs p module :
  ".." ∉ p →
  check_mode module = false →
  Os.stat fs p = inl ENOENT →
  ∃ fs', ensure_file p true module fs
         = (Returned (finish {["path" := VPath p]} true
                        (init_diff p FILE ABSENT)), fs')
         ∧ Os.stat fs' p = inr KFile.
Proof.
  intros Hpl Hc Hp.
  assert (Hs : get_current_state fs p = ABSENT).
  { apply state_ABSENT, exists_false. eauto. }
  pose proof (ensure_file_normal_plain p true module fs Hpl Hc Hs) as H.
  destruct (ensure_file p true module fs) as [[r|msg] fs'].
  - destruct H as [-> H]. eauto.
  - destruct H as (_ & e & _ & E).
    destruct (absent_not_root _ _ Hs) as (q & s & ->). rewrite parent_snoc in E.
    destruct (stat_ENOENT_parent _ _ _ Hpl Hp) as [Hq|Hq].
    + rewrite (mkdir_existing_dir _ _ _ Hq) in E. done.
    + apply plain_snoc in Hpl as [Hplq _].
      destruct (mkdir_succeeds_parents q true fs Hplq Hq) as [fs1 E1]. congruence.
Qed.

(** Without [nested], [ensure_file] still creates its parent directory when
    that is the only level missing: [file.parent.mkdir(parents=False)] is
    one [os.mkdir], where [ensure_directory] in the same situation fails. *)
Lemma ensure_file_flat_one_level fs q s s' module :
  ".." ∉ (q ++ [s] ++ [s']) →
  check_mode module = false →
  Os.stat fs q = inr KDir →
  Os.stat fs (q ++ [s]) = inl ENOENT →
  ∃ fs', ensure_file (q ++ [s] ++ [s']) false module fs
         = (Returned (finish {["path" := VPath (q ++ [s] ++ [s'])]} true
                        (init_diff (q ++ [s] ++ [s']) FILE ABSENT)), fs')
         ∧ Os.stat fs' (q ++ [s]) = inr KDir
         ∧ Os.stat fs' (q ++ [s] ++ [s']) = inr KFile.
Proof.
  intros Hpl Hc Hq Hs. rewrite (assoc_L (++)) in *.
  assert (Hnd : Pathlib.is_dir fs (q ++ [s]) = false).
  { unfold Pathlib.is_dir. by rewrite Hs. }
  pose proof (absent_below _ _ s' Hnd) as Hp%state_ABSENT.
  pose proof (ensure_file_normal_plain _ false module fs Hpl Hc Hp) as H.
  destruct (ensure_file ((q ++ [s]) ++ [s']) false module fs) as [[r|msg] fs'].
  - destruct H as [-> H]. exists fs'. split_and!; [done| |done].
    by apply (os_stat_ancestor _ _ [s'] KFile).
  - destruct H as (_ & e & _ & E). rewrite parent_snoc, mkdir_noparents in E.
    destruct (os_mkdir_succeeds _ _ _ Hq Hs) as [fs1 E1].
    unfold Pathlib.mkdir_flat in E. by rewrite E1 in E.
Qed.

End nested.

(** C2, as the code has it.  Take an ordinary path with a missing ancestor
    and a normal-mode call.  With [nested] false, [ensure_directory] fails
    and creates nothing; [ensure_file] fails and creates nothing when the
    parent of the parent is not a directory either.  With [nested] true,
    and no regular file among the ancestors of the path, both operations
    return a result with [changed] true, after which every ancestor is a
    directory and the path is what was asked for. *)
Theorem nested_gating (path : Path) (module : AnsibleModule) (fs : FS) :
  check_mode module = false →
  ordinary path = true →
  (∃ q r, path = q ++ r ∧ r ≠ [] ∧ Pathlib.exists_ fs q = false) →
  (∃ msg, ensure_directory path false module fs = (Failed msg, fs)) ∧
  (Pathlib.is_dir fs (Pathlib.parent (Pathlib.parent path)) = false →
     ∃ msg, ensure_file path false module fs = (Failed msg, fs)) ∧
  ((∀ q r, path = q ++ r → r ≠ [] → Os.stat fs q ≠ inr KFile) →
     (∃ res fs', ensure_directory path true module fs = (Returned res, fs') ∧
                 res !! "changed" = Some (VBool true) ∧
                 get_current_state fs' path = DIRECTORY ∧
                 ∀ q r, path = q ++ r → r ≠ [] → get_current_state fs' q = DIRECTORY) ∧
     (∃ res fs', ensure_file path true module fs = (Returned res, fs') ∧
                 res !! "changed" = Some (VBool true) ∧
                 get_current_state fs' path = FILE ∧
                 ∀ q r, path = q ++ r → r ≠ [] → get_current_state fs' q = DIRECTORY)).
Proof.
  intros Hc Hpl%ordinary_plain [Hne Hmiss]%missing_segment_parent.
  destruct (path_cases path) as [->|(q & s & ->)]; [done|]. clear Hne.
  rewrite parent_snoc in Hmiss.
  assert (Hq : Pathlib.is_dir fs q = false).
  { unfold Pathlib.is_dir. apply exists_false in Hmiss as [e ->]. done. }
  split_and!.
  - by apply ensure_directory_flat_fails.
  - destruct (path_cases q) as [->|(q' & s' & ->)]; [done|].
    rewrite !parent_snoc. intros Hq'. rewrite <- (assoc_L (++)).
    by apply ensure_file_flat_fails.
  - intros Hnf.
    pose proof (stat_absent_ENOENT fs (q ++ [s]) Hpl (absent_below _ _ s Hq) Hnf) as Hp.
    split.
    + destruct (ensure_directory_nested_succeeds _ _ _ Hpl Hc Hp) as (fs' & E & Hs).
      eexists _, fs'. split_and!; [done|apply changed_finish|by apply state_DIRECTORY|].
      intros q0 r0 E0 Hr0. rewrite E0 in Hs.
      by apply state_DIRECTORY, (os_stat_ancestor _ _ r0 KDir).
    + destruct (ensure_file_nested_succeeds _ _ _ Hpl Hc Hp) as (fs' & E & Hs).
      eexists _, fs'. split_and!; [done|apply changed_finish|by apply state_FILE|].
      intros q0 r0 E0 Hr0. rewrite E0 in Hs.
      by apply state_DIRECTORY, (os_stat_ancestor _ _ r0 KFile).
Qed.

Lemma nested_gating_witness :
  let path := ["nest1"; "nest2"; "nest3"] in
  let module := normal (mkParams "directory" path true) in
  (∃ msg, ensure_directory path false module fs_empty = (Failed msg, fs_empty)) ∧
  (∃ msg, ensure_file path false module fs_empty = (Failed msg, fs_empty)) ∧
  (∃ res fs', ensure_directory path true module fs_empty = (Returned res, fs') ∧
              res !! "changed" = Some (VBool true) ∧
              get_current_state fs' path = DIRECTORY ∧
              get_current_state fs' ["nest1"; "nest2"] = DIRECTORY ∧
              get_current_state fs' ["nest1"] = DIRECTORY).
Proof.
  intros path module.
  assert (Hmiss : ∃ q r, path = q ++ r ∧ r ≠ [] ∧ Pathlib.exists_ fs_empty q = false).
  { exists ["nest1"; "nest2"], ["nest3"]. split_and!; [reflexivity|discriminate|reflexivity]. }
  assert (Hnf : ∀ q r, path = q ++ r → r ≠ [] → Os.stat fs_empty q ≠ inr KFile).
  { intros q r _ _ H. apply os_stat_resolve in H as (c & _ & H).
    destruct c as [|x c]; [discriminate|]. rewrite tree_stat_cons in H. discriminate. }
  assert (Hord : ordinary path = true) by (vm_compute; reflexivity).
  destruct (nested_gating path module fs_empty eq_refl Hord Hmiss) as (Hd & Hf & Hn).
  split; [exact Hd|]. split; [apply Hf; reflexivity|].
  destruct (Hn Hnf) as [(res & fs' & E & Hch & Hs & Hanc) _].
  exists res, fs'. split_and!; [exact E|exact Hch|exact Hs| |].
  - apply (Hanc ["nest1"; "nest2"] ["nest3"]); [reflexivity|discriminate].
  - apply (Hanc ["nest1"] ["nest2"; "nest3"]); [reflexivity|discriminate].
Defined.

(** C2 does not hold as the specification words it.  Under the regular
    file [/etc/motd] the path [/etc/motd/a/b] has the missing parent
    [/etc/motd/a], and yet [ensure_directory] and [ensure_file] with
    [nested] true fail and create nothing: no directory can be made under
    a regular file. *)
Lemma nested_gating_counterexample :
  let path := ["etc"; "motd"; "a"; "b"] in
  Pathlib.exists_ fs_sample (Pathlib.parent path) = false ∧
  ensure_directory path true (normal (mkParams "directory" path true)) fs_sample
  = (Failed (mkMsg CreateDirectory path (SystemError ENOTDIR)), fs_sample) ∧
  ensure_file path true (normal (mkParams "file" path true)) fs_sample
  = (Failed (mkMsg CreateFile path (SystemError ENOTDIR)), fs_sample).
Proof. split_and!; vm_compute; reflexivity. Qed.

(* ===================================================================== *)
(** * The repository's tests, run on the model *)
(* ===================================================================== *)

Module Tests.

Example test_file_creation :
  let file_path := tmp_path ++ ["file"] in
  count_entries (after_run (FakeModule file_path "file" false) fs_tmp) tmp_path = Some 1.
Proof. vm_compute. reflexivity. Qed.

Example test_nested_file_creation_fails_when_no_nested_option :
  let file_path := tmp_path ++ ["nest1"; "nest2"; "file"] in
  raises (FakeModule file_path "file" false) fs_tmp = true.
Proof. vm_compute. reflexivity. Qed.

Example test_nested_file_creation_success_when_no_nested_option :
  let file_path := tmp_path ++ ["nest1"; "nest2"; "file"] in
  count_entries (after_run (FakeModule file_path "file" true) fs_tmp)
    (Pathlib.parent file_path) = Some 1.
Proof. vm_compute. reflexivity. Qed.

Example test_dir_creation :
  let dir_path := tmp_path ++ ["nest1"] in
  count_entries (after_run (FakeModule dir_path "directory" false) fs_tmp) tmp_path
  = Some 1.
Proof. vm_compute. reflexivity. Qed.

Example test_nested_dir_creation_fails_when_no_nested_option :
  let dir_path := tmp_path ++ ["nest1"; "nest2"; "nest3"] in
  raises (FakeModule dir_path "directory" false) fs_tmp = true.
Proof. vm_compute. reflexivity. Qed.

Example test_nested_dir_creation_success_when_nested_option :
  let dir_path := tmp_path ++ ["nest1"; "nest2"; "nest3"] in
  count_entries (after_run (FakeModule dir_path "directory" true) fs_tmp)
    (Pathlib.parent dir_path) = Some 1.
Proof. vm_compute. reflexivity. Qed.

Example test_dir_created_only_once :
  let module := FakeModule (tmp_path ++ ["nest1"]) "directory" false in
  count_entries (after_run module (after_run module (after_run module fs_tmp))) tmp_path
  = Some 1.
Proof. vm_compute. reflexivity. Qed.

Example test_file_created_only_once :
  let module := FakeModule (tmp_path ++ ["file"]) "file" false in
  count_entries (after_run module (after_run module (after_run module fs_tmp))) tmp_path
  = Some 1.
Proof. vm_compute. reflexivity. Qed.

Example test_file_deletion :
  let file_path := tmp_path ++ ["file"] in
  let fs1 := after_run (FakeModule file_path "file" false) fs_tmp in
  let fs2 := after_run (FakeModule file_path "absent" false) fs1 in
  count_entries fs1 tmp_path = Some 1 ∧ count_entries fs2 tmp_path = Some 0.
Proof. vm_compute. split; reflexivity. Qed.

Example test_directory_deletion :
  let dir_path := tmp_path ++ ["nested1"] in
  let fs1 := after_run (FakeModule dir_path "directory" false) fs_tmp in
  let fs2 := after_run (FakeModule dir_path "absent" false) fs1 in
  count_entries fs1 tmp_path = Some 1 ∧ count_entries fs2 tmp_path = Some 0.
Proof. vm_compute. split; reflexivity. Qed.

Example test_non_existing_deletion :
  let dir_path := tmp_path ++ ["nested1"; "nested2"] in
  count_entries fs_tmp tmp_path = Some 0 ∧
  count_entries (after_run (FakeModule dir_path "absent" false) fs_tmp) tmp_path = Some 0.
Proof. vm_compute. split; reflexivity. Qed.

Example test_nested_file_deletion :
  let file_path := tmp_path ++ ["nested1"; "nested2"; "file"] in
  let fs1 := after_run (FakeModule file_path "file" true) fs_tmp in
  let fs2 := after_run (FakeModule file_path "absent" false) fs1 in
  count_entries fs1 tmp_path = Some 1 ∧
  count_entries fs2 (Pathlib.parent file_path) = Some 0.
Proof. vm_compute. split; reflexivity. Qed.

End Tests.

(* ===================================================================== *)
(** * More on the three operations *)
(* ===================================================================== *)

Section more_operations.
Implicit Types (p q r : Path) (s : string) (fs : FS) (module : AnsibleModule).

(** The check-mode result is the dictionary a successful change returns. *)
Lemma check_mode_result_finish diff p :
  get_check_mode_result diff p = finish {["path" := VPath p]} true diff.
Proof.
  unfold get_check_mode_result, finish.
  by rewrite (insert_insert_ne _ "changed" "diff").
Qed.

Lemma dom_finish p b diff :
  dom (finish {["path" := VPath p]} b diff)
  = ({["changed"; "diff"; "path"]} : gset string).
Proof. unfold finish. rewrite !dom_insert_L, dom_singleton_L. set_solver. Qed.

(** Every result is built from the path and the diff of the state found. *)
Lemma ensure_file_result p nested module fs res fs' :
  ensure_file p nested module fs = (Returned res, fs') →
  ∃ b, res = finish {["path" := VPath p]} b (init_diff p FILE (get_current_state fs p)).
Proof.
  unfold ensure_file. rewrite check_mode_result_finish.
  destruct (get_current_state fs p); [| |destruct (check_mode module)];
    repeat (destruct (Pathlib.mkdir _ _ _ _) as [[?|?] ?]
            || destruct (Pathlib.touch _ _) as [[?|?] ?]);
    intros; simplify_eq; eauto.
Qed.

Lemma ensure_directory_result p nested module fs res fs' :
  ensure_directory p nested module fs = (Returned res, fs') →
  ∃ b, res = finish {["path" := VPath p]} b
             (init_diff p DIRECTORY (get_current_state fs p)).
Proof.
  unfold ensure_directory. rewrite check_mode_result_finish.
  destruct (get_current_state fs p); [| |destruct (check_mode module)];
    try destruct (Pathlib.mkdir _ _ _ _) as [[?|?] ?];
    intros; simplify_eq; eauto.
Qed.

Lemma ensure_absent_result p module fs res fs' :
  ensure_absent p module fs = (Returned res, fs') →
  ∃ b, res = finish {["path" := VPath p]} b
             (init_diff p ABSENT (get_current_state fs p)).
Proof.
  unfold ensure_absent. rewrite check_mode_result_finish.
  destruct (get_current_state fs p); [destruct (check_mode module)
                                     |destruct (check_mode module)|];
    try destruct (Pathlib.unlink _ _ _) as [[?|?] ?];
    try destruct (Shutil.rmtree _ _) as [[?|?] ?];
    intros; simplify_eq; eauto.
Qed.

(** The result of [ensure_absent] on a path that is there. *)
Lemma ensure_absent_result_changed p module fs res fs' :
  get_current_state fs p ≠ ABSENT →
  ensure_absent p module fs = (Returned res, fs') →
  res = finish {["path" := VPath p]} true
          (init_diff p ABSENT (get_current_state fs p)).
Proof.
  intros Hs. unfold ensure_absent. rewrite check_mode_result_finish.
  destruct (get_current_state fs p); [| |done];
    destruct (check_mode module);
    repeat (destruct (Pathlib.unlink _ _ _) as [[?|?] ?]
            || destruct (Shutil.rmtree _ _) as [[?|?] ?]);
    intros; by simplify_eq.
Qed.

(** *** What a creation touches *)

Lemma get_current_state_ext fs fs' r :
  ".." ∉ r →
  Tree.stat fs' r = Tree.stat fs r → get_current_state fs' r = get_current_state fs r.
Proof. intros Hr H. by rewrite !get_current_state_plain, H. Qed.

Lemma ensure_file_frame p nested module fs res fs' r :
  ".." ∉ p → ".." ∉ r →
  check_mode module = false →
  ensure_file p nested module fs = (Returned res, fs') →
  get_current_state fs' r = get_current_state fs r ∨
  (r `prefix_of` p ∧ get_current_state fs r = ABSENT ∧
   get_current_state fs' r = if decide (r = p) then FILE else DIRECTORY).
Proof.
  intros Hpl Hplr Hc E. destruct (get_current_state fs p) eqn:Hs.
  - rewrite (ensure_file_on_file _ _ _ _ Hs) in E. simplify_eq. by left.
  - by rewrite (ensure_file_on_directory _ _ _ _ Hs) in E.
  - unfold ensure_file in E. rewrite Hs, Hc in E.
    destruct (absent_not_root _ _ Hs) as (q & s & ->). rewrite parent_snoc in E.
    apply plain_snoc in Hpl as Hq0. destruct Hq0 as [Hplq _].
    destruct (Pathlib.mkdir q nested true fs) as [[e|u] fs1] eqn:Em; [done|].
    pose proof (mkdir_spec q nested true fs Hplq) as Hm. rewrite Em in Hm.
    destruct Hm as [Hq Hlen].
    assert (Hp1 : Pathlib.exists_ fs1 (q ++ [s]) = false).
    { apply state_ABSENT in Hs. rewrite exists_plain in Hs |- * by done.
      rewrite Hlen; [done|]. rewrite length_app. simpl. lia. }
    pose proof (touch_spec _ _ Hpl Hp1) as Ht.
    destruct (Pathlib.touch (q ++ [s]) fs1) as [[e|u'] fs2]; [done|].
    injection E as <- <-. destruct Ht as [Hp2 Hoff].
    destruct (decide ((q ++ [s]) `prefix_of` r)) as [[r' ->]|Hnp].
    + destruct r' as [|x r'].
      * rewrite app_nil_r. right. split_and!; [done..|].
        rewrite decide_True by done. apply state_FILE. by rewrite os_stat_plain.
      * left. transitivity ABSENT; [|symmetry].
        -- apply state_ABSENT, below_file; [by rewrite os_stat_plain|done].
        -- apply state_ABSENT, below_absent. by apply state_ABSENT.
    + destruct (mkdir_frame _ _ _ _ _ _ r Hplq Em) as [Hr|(Hpre & Hr0 & Hr1)].
      * left. apply get_current_state_ext; [done|]. by rewrite Hoff.
      * right. split_and!; [by apply prefix_app_r| |].
        -- by rewrite get_current_state_plain, Hr0.
        -- rewrite decide_False by (by intros ->).
           rewrite get_current_state_plain by done. by rewrite Hoff, Hr1.
Qed.

Lemma ensure_directory_frame p nested module fs res fs' r :
  ".." ∉ p → ".." ∉ r →
  check_mode module = false →
  ensure_directory p nested module fs = (Returned res, fs') →
  get_current_state fs' r = get_current_state fs r ∨
  (r `prefix_of` p ∧ get_current_state fs r = ABSENT ∧
   get_current_state fs' r = DIRECTORY).
Proof.
  intros Hpl Hplr Hc E.
  destruct (decide (get_current_state fs p = ABSENT)) as [Hs|Hs].
  - unfold ensure_directory in E. rewrite Hs, Hc in E.
    destruct (Pathlib.mkdir p nested true fs) as [[e|u] fs1] eqn:Em; [done|].
    injection E as <- <-.
    destruct (mkdir_frame _ _ _ _ _ _ r Hpl Em) as [Hr|(Hpre & Hr0 & Hr1)].
    + left. by apply get_current_state_ext.
    + right. rewrite !get_current_state_plain, Hr0, Hr1 by done. by split_and!.
  - rewrite (ensure_directory_on_existing _ _ _ _ Hs) in E. simplify_eq. by left.
Qed.

(** *** What a removal touches *)


End more_operations.

(* ===================================================================== *)
(** * Further properties of the reconciler *)
(* ===================================================================== *)

(** ** The shape of a result *)

(** X1. For a [state] among [State.to_choices()], the choices [run_module]
    validates against, a result returned by [run_proper_handler] is exactly
    the dictionary with the keys ["changed"], ["diff"] and ["path"]: the path
    is the one asked for and the diff is the one from the state found before
    the call to the state named.  The bare default [{changed: False}] is
    never what a validated request gets. *)
Theorem result_shape (module : AnsibleModule) (fs fs' : FS) (res : Result) :
  state (params module) ∈ to_choices →
  run_proper_handler module fs = (Returned res, fs') →
  ∃ desired b,
    state (params module) = value desired ∧
    res = {[ "changed" := VBool b;
             "diff" := VDiff (init_diff (path (params module)) desired
                                (get_current_state fs (path (params module))));
             "path" := VPath (path (params module)) ]}.
Proof.
  intros [desired Hst]%elem_of_to_choices E. exists desired.
  assert (∃ b, res = finish {["path" := VPath (path (params module))]} b
                       (init_diff (path (params module)) desired
                          (get_current_state fs (path (params module)))))
    as [b ->].
  { destruct desired.
    - rewrite (run_file _ _ Hst) in E. by eapply ensure_file_result.
    - rewrite (run_directory _ _ Hst) in E. by eapply ensure_directory_result.
    - rewrite (run_absent _ _ Hst) in E. by eapply ensure_absent_result. }
  exists b. split; [done|]. unfold finish.
  by rewrite (insert_insert_ne _ "changed" "diff").
Qed.

Lemma result_shape_witness :
  let module := dry_run (mkParams "absent" ["etc"; "motd"] false) in
  ∃ desired b,
    "absent" = value desired ∧
    fst (run_proper_handler module fs_sample)
    = Returned {[ "changed" := VBool b;
                  "diff" := VDiff (init_diff ["etc"; "motd"] desired
                              (get_current_state fs_sample ["etc"; "motd"]));
                  "path" := VPath ["etc"; "motd"] ]}.
Proof.
  intros module.
  destruct (result_shape module fs_sample (snd (run_proper_handler module fs_sample))
              (get_check_mode_result (init_diff ["etc"; "motd"] ABSENT FILE)
                 ["etc"; "motd"]))
    as (desired & b & Hd & Hr).
  - apply elem_of_to_choices. by exists ABSENT.
  - vm_compute. reflexivity.
  - exists desired, b. split; [exact Hd|].
    transitivity (Returned (get_check_mode_result
                              (init_diff ["etc"; "motd"] ABSENT FILE) ["etc"; "motd"])).
    + vm_compute. reflexivity.
    + f_equal. exact Hr.
Defined.


(** X2. In normal mode the [changed] flag of a returned result tells the
    truth about the disk: it is true exactly when the filesystem after the
    call differs from the one before. *)
Theorem changed_iff_mutated
    (path : Path) (nested : bool) (module : AnsibleModule) (fs fs' : FS) (res : Result) :
  check_mode module = false →
  (ensure_file path nested module fs = (Returned res, fs') →
     (res !! "changed" = Some (VBool true) ↔ fs' ≠ fs)) ∧
  (ensure_directory path nested module fs = (Returned res, fs') →
     (res !! "changed" = Some (VBool true) ↔ fs' ≠ fs)) ∧
  (ensure_absent path module fs = (Returned res, fs') →
     (res !! "changed" = Some (VBool true) ↔ fs' ≠ fs)).
Proof.
  intros Hc.
  assert (Hsame : ∀ b diff,
            finish {["path" := VPath path]} b diff !! "changed" = Some (VBool true)
            ↔ b = true).
  { intros b diff. rewrite changed_finish. split; [by intros [= ->]|by intros ->]. }
  split_and!; intros E.
  - destruct (get_current_state fs path) eqn:Hs.
    + rewrite (ensure_file_on_file _ _ _ _ Hs) in E. injection E as <- <-.
      rewrite Hsame. split; done.
    + by rewrite (ensure_file_on_directory _ _ _ _ Hs) in E.
    + pose proof (ensure_file_normal _ nested _ _ Hc Hs) as H. rewrite E in H.
      destruct H as (-> & _ & Hne). rewrite Hsame. split; done.
  - destruct (decide (get_current_state fs path = ABSENT)) as [Hs|Hs].
    + pose proof (ensure_directory_normal _ nested _ _ Hc Hs) as H. rewrite E in H.
      destruct H as (-> & _ & Hne). rewrite Hsame. split; done.
    + rewrite (ensure_directory_on_existing _ _ _ _ Hs) in E. injection E as <- <-.
      rewrite Hsame. split; done.
  - destruct (get_current_state fs path) eqn:Hs.
    + destruct (ensure_absent_normal_file _ module _ Hc Hs) as (fs1 & E1 & Hne & _).
      rewrite E1 in E. injection E as <- <-. rewrite Hsame. split; done.
    + pose proof (ensure_absent_normal_directory _ module _ Hc Hs) as H.
      rewrite E in H. destruct H as (-> & Hne & _). rewrite Hsame. split; done.
    + rewrite (ensure_absent_on_absent _ _ _ Hs) in E. injection E as <- <-.
      rewrite Hsame. split; done.
Qed.

Lemma changed_iff_mutated_witness :
  let module := normal (mkParams "directory" ["srv"; "www"; "img"] false) in
  let out := ensure_directory ["srv"; "www"; "img"] false module fs_sample in
  snd out ≠ fs_sample.
Proof.
  intros module out.
  destruct (changed_iff_mutated ["srv"; "www"; "img"] false module fs_sample (snd out)
              (finish {["path" := VPath ["srv"; "www"; "img"]]} true
                 (init_diff ["srv"; "www"; "img"] DIRECTORY ABSENT)) eq_refl)
    as (_ & Hdir & _).
  apply Hdir.
  - vm_compute. reflexivity.
  - vm_compute. reflexivity.
Defined.

(** ** Failures *)

Section failures.
Implicit Types (p : Path) (fs : FS) (module : AnsibleModule).

Lemma ensure_file_failed p nested module fs msg fs' :
  ".." ∉ p →
  ensure_file p nested module fs = (Failed msg, fs') →
  fs' = fs ∧ msg_op msg = CreateFile ∧ msg_path msg = p ∧
  (msg_cause msg = PathIsDirectory ↔ get_current_state fs p = DIRECTORY).
Proof.
  intros Hpl E. destruct (get_current_state fs p) eqn:Hs.
  - by rewrite (ensure_file_on_file _ _ _ _ Hs) in E.
  - rewrite (ensure_file_on_directory _ _ _ _ Hs) in E. unfold fail_json in E.
    by simplify_eq.
  - destruct (check_mode module) eqn:Hc.
    + by rewrite (ensure_file_check _ _ _ _ Hc Hs) in E.
    + pose proof (ensure_file_normal_plain _ nested _ _ Hpl Hc Hs) as H.
      rewrite E in H.
      destruct H as (-> & e & -> & _). split_and!; [done..|]. by split.
Qed.

Lemma ensure_directory_failed p nested module fs msg fs' :
  ".." ∉ p →
  ensure_directory p nested module fs = (Failed msg, fs') →
  fs' = fs ∧ msg_op msg = CreateDirectory ∧ msg_path msg = p ∧
  get_current_state fs p = ABSENT ∧ check_mode module = false.
Proof.
  intros Hpl E. destruct (decide (get_current_state fs p = ABSENT)) as [Hs|Hs].
  - destruct (check_mode module) eqn:Hc.
    + by rewrite (ensure_directory_check _ _ _ _ Hc Hs) in E.
    + pose proof (ensure_directory_normal_plain _ nested _ _ Hpl Hc Hs) as H.
      rewrite E in H. by destruct H as (-> & e & -> & _).
  - by rewrite (ensure_directory_on_existing _ _ _ _ Hs) in E.
Qed.


End failures.

(** X3. On an ordinary path a creation that fails has created nothing:
    whenever [ensure_file] or [ensure_directory] ends in [fail_json], in
    either mode and whatever [nested] says, the filesystem is exactly as it
    was; not even a part of the parent chain is left behind.  The message
    names the operation and the path, and it says "path is directory"
    exactly when that is what [ensure_file] found; [ensure_directory] fails
    only from its mutating branch. *)
Theorem creation_failure_atomic
    (path : Path) (nested : bool) (module : AnsibleModule) (fs fs' : FS) (msg : Msg) :
  ordinary path = true →
  (ensure_file path nested module fs = (Failed msg, fs') →
     fs' = fs ∧ msg_op msg = CreateFile ∧ msg_path msg = path ∧
     (msg_cause msg = PathIsDirectory ↔ get_current_state fs path = DIRECTORY)) ∧
  (ensure_directory path nested module fs = (Failed msg, fs') →
     fs' = fs ∧ msg_op msg = CreateDirectory ∧ msg_path msg = path ∧
     get_current_state fs path = ABSENT ∧ check_mode module = false).
Proof.
  intros Hpl%ordinary_plain.
  split; [by apply ensure_file_failed|by apply ensure_directory_failed].
Qed.

Lemma creation_failure_atomic_witness :
  let path := ["etc"; "motd"; "a"; "b"] in
  let module := normal (mkParams "file" path true) in
  snd (ensure_file path true module fs_sample) = fs_sample.
Proof.
  intros path module.
  destruct (creation_failure_atomic path true module fs_sample
              (snd (ensure_file path true module fs_sample))
              (mkMsg CreateFile path (SystemError ENOTDIR))) as [Hfile _].
  - vm_compute. reflexivity.
  - apply Hfile. vm_compute. reflexivity.
Defined.

(** On a path with [".."] this is not so: on the way to [a/../etc/motd/x]
    the directory [a] is made before [Path.mkdir] runs into the regular
    file [motd], and it stays. *)
Lemma creation_failure_dotdot :
  let path := ["a"; ".."; "etc"; "motd"; "x"] in
  ensure_directory path true (normal (mkParams "directory" path true)) fs_sample
  = (Failed (mkMsg CreateDirectory path (SystemError EEXIST)),
     <["a" := Dir ∅]> fs_sample).
Proof. vm_compute. reflexivity. Qed.

(** ** Removal *)



(** On [srv/..] the removal is neither total nor exact: the path leads to
    the root, which [rmtree] empties before [os.rmdir] fails. *)
Lemma removal_dotdot :
  let path := ["srv"; ".."] in
  ensure_absent path (normal (mkParams "absent" path false)) fs_sample
  = (Failed (mkMsg DeleteDirectory path (SystemError ENOENT)), ∅).
Proof. vm_compute. reflexivity. Qed.

(** ** Creation *)

(** X5. In normal mode [ensure_file] and [ensure_directory] on an ordinary
    path never remove anything and never change what something is.  After a
    call that returns, every ordinary path is classified as before, except
    for paths on the way to the target that were absent: of those the
    target is now what was asked for and the others are directories. *)
Theorem creation_frame
    (path : Path) (nested : bool) (module : AnsibleModule) (fs fs' : FS)
    (res : Result) (r : Path) :
  ordinary path = true →
  ordinary r = true →
  check_mode module = false →
  (ensure_file path nested module fs = (Returned res, fs') →
     get_current_state fs' r = get_current_state fs r ∨
     (r `prefix_of` path ∧ get_current_state fs r = ABSENT ∧
      get_current_state fs' r = if decide (r = path) then FILE else DIRECTORY)) ∧
  (ensure_directory path nested module fs = (Returned res, fs') →
     get_current_state fs' r = get_current_state fs r ∨
     (r `prefix_of` path ∧ get_current_state fs r = ABSENT ∧
      get_current_state fs' r = DIRECTORY)).
Proof.
  intros Hpl%ordinary_plain Hr%ordinary_plain Hc. split; intros E.
  - by eapply ensure_file_frame.
  - by eapply ensure_directory_frame.
Qed.

Lemma creation_frame_witness :
  let path := ["srv"; "www"; "a"; "index"] in
  let module := normal (mkParams "file" path true) in
  let fs' := snd (ensure_file path true module fs_sample) in
  get_current_state fs' ["etc"; "motd"] = FILE ∧
  get_current_state fs' ["srv"; "www"] = DIRECTORY.
Proof.
  intros path module fs'.
  pose (res := finish {["path" := VPath path]} true (init_diff path FILE ABSENT)).
  assert (E : ensure_file path true module fs_sample = (Returned res, fs'))
    by (vm_compute; reflexivity).
  assert (Hord : ordinary path = true) by (vm_compute; reflexivity).
  split.
  - destruct (creation_frame path true module fs_sample fs' res ["etc"; "motd"]
                Hord eq_refl eq_refl) as [Hfile _].
    destruct (Hfile E) as [H|(_ & H & _)]; [rewrite H; reflexivity|discriminate H].
  - destruct (creation_frame path true module fs_sample fs' res ["srv"; "www"]
                Hord eq_refl eq_refl) as [Hfile _].
    destruct (Hfile E) as [H|(_ & H & _)]; [rewrite H; reflexivity|discriminate H].
Defined.

(** ** Check mode against normal mode *)

(** X6. Whenever the normal-mode call returns a result, the check-mode call
    on the same filesystem returns the very same dictionary (same [changed],
    same diff, same path) without touching the disk: check mode is wrong only
    where the real call fails. *)
Theorem check_mode_predicts
    (path : Path) (nested : bool) (module module' : AnsibleModule)
    (fs fs' : FS) (res : Result) :
  check_mode module = true →
  check_mode module' = false →
  (ensure_file path nested module' fs = (Returned res, fs') →
     ensure_file path nested module fs = (Returned res, fs)) ∧
  (ensure_directory path nested module' fs = (Returned res, fs') →
     ensure_directory path nested module fs = (Returned res, fs)) ∧
  (ensure_absent path module' fs = (Returned res, fs') →
     ensure_absent path module fs = (Returned res, fs)).
Proof.
  intros Hc Hc'. split_and!; intros E.
  - destruct (get_current_state fs path) eqn:Hs.
    + rewrite (ensure_file_on_file _ _ module' _ Hs) in E.
      rewrite (ensure_file_on_file _ _ module _ Hs). by simplify_eq.
    + by rewrite (ensure_file_on_directory _ _ _ _ Hs) in E.
    + pose proof (ensure_file_normal _ nested _ _ Hc' Hs) as H. rewrite E in H.
      destruct H as [-> _].
      by rewrite (ensure_file_check _ _ _ _ Hc Hs), check_mode_result_finish.
  - destruct (decide (get_current_state fs path = ABSENT)) as [Hs|Hs].
    + pose proof (ensure_directory_normal _ nested _ _ Hc' Hs) as H. rewrite E in H.
      destruct H as [-> _].
      by rewrite (ensure_directory_check _ _ _ _ Hc Hs), check_mode_result_finish.
    + rewrite (ensure_directory_on_existing _ _ module' _ Hs) in E.
      rewrite (ensure_directory_on_existing _ _ module _ Hs). by simplify_eq.
  - destruct (decide (get_current_state fs path = ABSENT)) as [Hs|Hs].
    + rewrite (ensure_absent_on_absent _ module' _ Hs) in E.
      rewrite (ensure_absent_on_absent _ module _ Hs). by simplify_eq.
    + rewrite (ensure_absent_check _ _ _ Hc Hs), check_mode_result_finish.
      destruct (ensure_absent_result _ _ _ _ _ E) as [b ->].
      destruct b; [done|]. exfalso.
      unfold ensure_absent in E. rewrite Hc' in E.
      destruct (get_current_state fs path); [| |done];
        repeat (destruct (Pathlib.unlink _ _ _) as [[?|?] ?]
                || destruct (Shutil.rmtree _ _) as [[?|?] ?]);
        try done; injection E as E _;
        apply (f_equal (λ m : Result, m !! "changed")) in E;
        rewrite !changed_finish in E; done.
Qed.

Lemma check_mode_predicts_witness :
  let path := ["nest1"; "nest2"; "file"] in
  let module := dry_run (mkParams "file" path true) in
  let module' := normal (mkParams "file" path true) in
  ensure_file path true module fs_empty
  = (fst (ensure_file path true module' fs_empty), fs_empty).
Proof.
  intros path module module'.
  apply (check_mode_predicts path true module module' fs_empty
           (snd (ensure_file path true module' fs_empty))
           (finish {["path" := VPath path]} true (init_diff path FILE ABSENT))).
  - reflexivity.
  - reflexivity.
  - vm_compute. reflexivity.
Defined.


(** X7. In check mode, on an ordinary path, the only call that fails is
    [ensure_file] on a directory: [ensure_file] fails exactly then, and
    [ensure_directory] and [ensure_absent] always return a result. *)
Theorem check_mode_failures
    (path : Path) (nested : bool) (module : AnsibleModule) (fs : FS) :
  ordinary path = true →
  check_mode module = true →
  ((∃ msg, fst (ensure_file path nested module fs) = Failed msg)
     ↔ get_current_state fs path = DIRECTORY) ∧
  (∃ res, ensure_directory path nested module fs = (Returned res, fs)) ∧
  (∃ res, ensure_absent path module fs = (Returned res, fs)).
Proof.
  intros _ Hc. split_and!.
  - destruct (get_current_state fs path) eqn:Hs.
    + rewrite (ensure_file_on_file _ _ _ _ Hs). split; [by intros [? ?]|done].
    + rewrite (ensure_file_on_directory _ _ _ _ Hs). split; [done|]. intros _.
      unfold fail_json. simpl. eauto.
    + rewrite (ensure_file_check _ _ _ _ Hc Hs). split; [by intros [? ?]|done].
  - destruct (decide (get_current_state fs path = ABSENT)) as [Hs|Hs].
    + rewrite (ensure_directory_check _ _ _ _ Hc Hs). eauto.
    + rewrite (ensure_directory_on_existing _ _ _ _ Hs). eauto.
  - destruct (decide (get_current_state fs path = ABSENT)) as [Hs|Hs].
    + rewrite (ensure_absent_on_absent _ _ _ Hs). eauto.
    + rewrite (ensure_absent_check _ _ _ Hc Hs). eauto.
Qed.

Lemma check_mode_failures_witness :
  let module := dry_run (mkParams "file" ["srv"] false) in
  ∃ msg, fst (ensure_file ["srv"] false module fs_sample) = Failed msg.
Proof.
  intros module.
  apply (check_mode_failures ["srv"] false module fs_sample);
    [vm_compute; reflexivity|reflexivity|reflexivity].
Defined.

(** ** When a creation goes through *)

Section returns.
Implicit Types (p q : Path) (fs : FS) (module : AnsibleModule).

Lemma ensure_directory_returns p nested module fs :
  ".." ∉ p →
  check_mode module = false →
  (∃ res fs', ensure_directory p nested module fs = (Returned res, fs')) ↔
  Pathlib.exists_ fs p = true ∨
  (Os.stat fs p = inl ENOENT ∧
   (nested = true ∨ Pathlib.is_dir fs (Pathlib.parent p) = true)).
Proof.
  intros Hpl Hc. destruct (decide (get_current_state fs p = ABSENT)) as [Hs|Hs].
  - assert (Hex : Pathlib.exists_ fs p = false) by (by apply state_ABSENT).
    pose proof (mkdir_ok_iff p nested fs Hpl) as Hm.
    unfold ensure_directory. rewrite Hs, Hc. split.
    + intros (res & fs' & E). right.
      destruct (Pathlib.mkdir p nested true fs) as [[e'|[]] fs1]; [done|].
      destruct Hm as [Hm _]. destruct Hm as [Hk|H]; [eauto| |done].
      apply exists_false in Hex as [e He]. congruence.
    + intros [H|H]; [congruence|].
      destruct Hm as [_ Hm]. destruct (Hm (or_intror H)) as [fs1 ->]. eauto.
  - assert (Hex : Pathlib.exists_ fs p = true).
    { destruct (Pathlib.exists_ fs p) eqn:Hex; [done|]. by apply state_ABSENT in Hex. }
    rewrite (ensure_directory_on_existing _ _ _ _ Hs). split; eauto.
Qed.

Lemma ensure_file_returns p nested module fs :
  ".." ∉ p →
  check_mode module = false →
  (∃ res fs', ensure_file p nested module fs = (Returned res, fs')) ↔
  get_current_state fs p = FILE ∨
  (Os.stat fs p = inl ENOENT ∧
   (nested = true ∨ Pathlib.is_dir fs (Pathlib.parent p) = true ∨
    Pathlib.is_dir fs (Pathlib.parent (Pathlib.parent p)) = true)).
Proof.
  intros Hpl Hc. destruct (get_current_state fs p) eqn:Hs.
  - rewrite (ensure_file_on_file _ _ _ _ Hs). split; eauto.
  - rewrite (ensure_file_on_directory _ _ _ _ Hs). apply state_DIRECTORY in Hs.
    split; [by intros (? & ? & ?)|]. intros [?|[? _]]; congruence.
  - destruct (absent_not_root _ _ Hs) as (q & s & ->).
    pose proof (ensure_file_normal_plain _ nested _ _ Hpl Hc Hs) as H.
    apply plain_snoc in Hpl as Hq0. destruct Hq0 as [Hplq _].
    rewrite parent_snoc in *.
    assert (Hex : Pathlib.exists_ fs (q ++ [s]) = false) by (by apply state_ABSENT).
    pose proof (mkdir_ok_iff q nested fs Hplq) as Hm. split.
    + intros (res & fs' & E). right. unfold ensure_file in E.
      rewrite Hs, Hc, parent_snoc in E.
      destruct (Pathlib.mkdir q nested true fs) as [[e'|[]] fs1]; [done|].
      destruct Hm as [Hm _]. destruct Hm as [Hq|(Hq & Hn)]; [eauto| |].
      * split; [by apply stat_absent_child|]. right. left. by apply is_dir_true.
      * split; [|destruct Hn; auto].
        rewrite os_stat_plain in Hq |- * by done.
        by apply tree_stat_child_no_parent, tree_stat_inl_dir_at.
    + intros [?|(Hp & Hn)]; [done|].
      assert (∃ fs1, Pathlib.mkdir q nested true fs = (inr tt, fs1)) as [fs1 Em].
      { apply Hm. destruct (stat_ENOENT_parent _ _ _ Hpl Hp) as [Hq|Hq]; [by left|].
        right. split; [done|]. destruct Hn as [?|[Hd|?]]; [by left| |by right].
        apply is_dir_true in Hd. congruence. }
      destruct (ensure_file (q ++ [s]) nested module fs) as [[res|msg] fs']; [eauto|].
      destruct H as (_ & e & _ & E). congruence.
Qed.

End returns.

(** X8. In normal mode, on an ordinary path, [ensure_directory] returns a
    result exactly when the path exists already (as anything), or it fails
    to resolve only because a name is missing ([ENOENT], no regular file on
    the way) and either [nested] is set or its parent is a directory. *)
Theorem ensure_directory_returns_iff
    (path : Path) (nested : bool) (module : AnsibleModule) (fs : FS) :
  ordinary path = true →
  check_mode module = false →
  (∃ res fs', ensure_directory path nested module fs = (Returned res, fs')) ↔
  Pathlib.exists_ fs path = true ∨
  (Os.stat fs path = inl ENOENT ∧
   (nested = true ∨ Pathlib.is_dir fs (Pathlib.parent path) = true)).
Proof. intros Hpl%ordinary_plain. by apply ensure_directory_returns. Qed.

Lemma ensure_directory_returns_iff_witness :
  let module := normal (mkParams "directory" ["a"; "b"] false) in
  ¬ ∃ res fs', ensure_directory ["a"; "b"] false module fs_sample = (Returned res, fs').
Proof.
  intros module H.
  apply (ensure_directory_returns_iff ["a"; "b"] false module fs_sample) in H;
    [|vm_compute; reflexivity|reflexivity].
  destruct H as [H|(_ & [H|H])]; discriminate H.
Defined.

(** X9. In normal mode, on an ordinary path, [ensure_file] returns a result
    exactly when the path is a regular file already, or it fails to resolve
    only because a name is missing and one of these holds: [nested] is set,
    the parent is a directory, or the parent of the parent is a directory.
    The last case is one level more than [ensure_directory] allows without
    [nested]. *)
Theorem ensure_file_returns_iff
    (path : Path) (nested : bool) (module : AnsibleModule) (fs : FS) :
  ordinary path = true →
  check_mode module = false →
  (∃ res fs', ensure_file path nested module fs = (Returned res, fs')) ↔
  get_current_state fs path = FILE ∨
  (Os.stat fs path = inl ENOENT ∧
   (nested = true ∨ Pathlib.is_dir fs (Pathlib.parent path) = true ∨
    Pathlib.is_dir fs (Pathlib.parent (Pathlib.parent path)) = true)).
Proof. intros Hpl%ordinary_plain. by apply ensure_file_returns. Qed.

Lemma ensure_file_returns_iff_witness :
  let module := normal (mkParams "file" ["srv"; "www"; "a"; "index"] false) in
  ∃ res fs', ensure_file ["srv"; "www"; "a"; "index"] false module fs_sample
             = (Returned res, fs').
Proof.
  intros module.
  apply (ensure_file_returns_iff ["srv"; "www"; "a"; "index"] false module fs_sample);
    [vm_compute; reflexivity|reflexivity|].
  right. split; [reflexivity|]. right. right. reflexivity.
Defined.

(** With [".."] the path can fail to resolve with [ENOENT] and still have
    a regular file further on: [a/../etc/motd/x] is such a path, and with
    [nested] set the creation fails there. *)
Lemma returns_dotdot :
  let path := ["a"; ".."; "etc"; "motd"; "x"] in
  Os.stat fs_sample path = inl ENOENT ∧
  ∃ msg fs', ensure_directory path true (normal (mkParams "directory" path true)) fs_sample
             = (Failed msg, fs').
Proof. split; [reflexivity|]. eexists _, _. vm_compute. reflexivity. Qed.

(** ** Creating and removing again *)

Section round_trip.
Implicit Types (p q c : Path) (s : string) (fs : FS) (es d : gmap string node).





End round_trip.



(** ** Running the same request again *)

Section rerun.
Implicit Types (p : Path) (fs : FS) (module : AnsibleModule).

Lemma ensure_file_rerun p nested module fs :
  snd (ensure_file p nested module (snd (ensure_file p nested module fs)))
  = snd (ensure_file p nested module fs).
Proof.
  destruct (check_mode module) eqn:Hc.
  { by rewrite !ensure_file_check_pure. }
  assert (Hfix : ∀ fs1,
            (∃ e, Pathlib.mkdir (Pathlib.parent p) nested true fs1 = (inl e, fs1)) ∨
            (Pathlib.mkdir (Pathlib.parent p) nested true fs1 = (inr tt, fs1) ∧
             ∃ e, Pathlib.touch p fs1 = (inl e, fs1)) ∨
            Pathlib.exists_ fs1 p = true →
            snd (ensure_file p nested module fs1) = fs1).
  { intros fs1 H. unfold ensure_file. rewrite Hc.
    destruct (get_current_state fs1 p) eqn:Hs1; [done..|].
    destruct H as [[e ->]|[[-> [e ->]]|H]]; [done..|].
    apply state_ABSENT in Hs1. congruence. }
  destruct (ensure_file p nested module fs) as [o fs1] eqn:E. simpl.
  destruct (get_current_state fs p) eqn:Hs.
  - rewrite (ensure_file_on_file _ _ _ _ Hs) in E. simplify_eq.
    by rewrite (ensure_file_on_file _ _ _ _ Hs).
  - rewrite (ensure_file_on_directory _ _ _ _ Hs) in E. simplify_eq.
    by rewrite (ensure_file_on_directory _ _ _ _ Hs).
  - unfold ensure_file in E. rewrite Hs, Hc in E.
    pose proof (mkdir_outcome (Pathlib.parent p) nested fs) as Hm.
    destruct (Pathlib.mkdir (Pathlib.parent p) nested true fs) as [[e|u] fs0] eqn:Em.
    + simplify_eq. destruct Hm as (_ & _ & Hre). apply Hfix. by left.
    + destruct Hm as (_ & _ & Hre).
      destruct (Pathlib.touch p fs0) as [[e|u'] fs2] eqn:Et; simplify_eq.
      * apply touch_fail in Et as Heq. subst fs0. apply Hfix. right. left. eauto.
      * apply Hfix. right. right. by apply touch_ok in Et as [? _].
Qed.

Lemma ensure_directory_rerun p nested module fs :
  snd (ensure_directory p nested module (snd (ensure_directory p nested module fs)))
  = snd (ensure_directory p nested module fs).
Proof.
  destruct (check_mode module) eqn:Hc.
  { by rewrite !ensure_directory_check_pure. }
  destruct (ensure_directory p nested module fs) as [o fs1] eqn:E. simpl.
  destruct (decide (get_current_state fs p = ABSENT)) as [Hs|Hs].
  - unfold ensure_directory in E. rewrite Hs, Hc in E.
    pose proof (mkdir_outcome p nested fs) as Hm.
    destruct (Pathlib.mkdir p nested true fs) as [[e|u] fs0] eqn:Em; simplify_eq.
    + destruct Hm as (_ & _ & e' & Hre). unfold ensure_directory. rewrite Hc.
      destruct (get_current_state fs1 p); [done..|]. by rewrite Hre.
    + destruct Hm as (Hd & _ & _). rewrite ensure_directory_on_existing; [done|].
      apply is_dir_true, state_DIRECTORY in Hd. congruence.
  - rewrite (ensure_directory_on_existing _ _ _ _ Hs) in E. simplify_eq.
    by rewrite (ensure_directory_on_existing _ _ _ _ Hs).
Qed.

Lemma ensure_absent_rerun p module fs :
  snd (ensure_absent p module (snd (ensure_absent p module fs)))
  = snd (ensure_absent p module fs).
Proof.
  destruct (check_mode module) eqn:Hc.
  { by rewrite !ensure_absent_check_pure. }
  destruct (ensure_absent p module fs) as [o fs1] eqn:E. simpl.
  destruct (get_current_state fs p) eqn:Hs.
  - destruct (ensure_absent_normal_file p module fs Hc Hs) as (fs' & E1 & _ & Hex).
    rewrite E1 in E. simplify_eq.
    rewrite ensure_absent_on_absent; [done|by apply state_ABSENT].
  - unfold ensure_absent in E. rewrite Hs, Hc in E.
    destruct (Shutil.rmtree p fs) as [[e|u] fs0] eqn:Er; simplify_eq.
    + apply state_DIRECTORY in Hs. destruct (rmtree_fail _ _ _ _ Hs Er) as [Hnf Hre].
      unfold ensure_absent. rewrite Hc.
      destruct (get_current_state fs1 p) eqn:Hs1; [| |done].
      * by apply state_FILE in Hs1.
      * apply state_DIRECTORY in Hs1. by rewrite (Hre Hs1).
    + apply rmtree_ok in Er as [_ Hex].
      rewrite ensure_absent_on_absent; [done|by apply state_ABSENT].
  - rewrite (ensure_absent_on_absent _ _ _ Hs) in E. simplify_eq.
    by rewrite (ensure_absent_on_absent _ _ _ Hs).
Qed.

End rerun.

(** X11. The effect of [run_proper_handler] on the disk is idempotent, with
    no condition at all: for every module (any [state] string, any path,
    either mode) and every filesystem, running the same request a second
    time leaves the filesystem the first run left, whether the first run
    returned a result or failed. *)
Theorem rerun_changes_nothing (module : AnsibleModule) (fs : FS) :
  after_run module (after_run module fs) = after_run module fs.
Proof.
  unfold after_run, run_proper_handler.
  repeat case_decide; simpl;
    auto using ensure_file_rerun, ensure_directory_rerun, ensure_absent_rerun.
Qed.

(** ** One operation after another *)

(** X12. The two creating operations do not undo each other.  After a
    normal-mode [ensure_directory] has returned on a path that was not a
    regular file, [ensure_file] on that path fails with "path is directory"
    and touches nothing.  After a normal-mode [ensure_file] has returned on
    a path without [".."], [ensure_directory] on that path returns
    [changed] false, touches nothing, and the path is still a regular
    file. *)
Theorem file_and_directory_do_not_convert
    (path : Path) (nested nested' : bool) (module module' : AnsibleModule)
    (fs fs1 : FS) (res : Result) :
  check_mode module = false →
  (get_current_state fs path ≠ FILE →
   ensure_directory path nested module fs = (Returned res, fs1) →
   ensure_file path nested' module' fs1
   = (Failed (mkMsg CreateFile path PathIsDirectory), fs1)) ∧
  (".." ∉ path →
   ensure_file path nested module fs = (Returned res, fs1) →
   ensure_directory path nested' module' fs1
   = (Returned (finish {["path" := VPath path]} false
                  (init_diff path DIRECTORY FILE)), fs1)
   ∧ get_current_state fs1 path = FILE).
Proof.
  intros Hc. split.
  - intros Hnf E.
    pose proof (ensure_directory_converges _ _ _ _ _ _ Hc Hnf E) as H.
    by rewrite (ensure_file_on_directory _ _ _ _ H).
  - intros Hpl E. pose proof (ensure_file_converges _ _ _ _ _ _ Hpl Hc E) as H.
    split; [|done]. rewrite ensure_directory_on_existing by congruence.
    by rewrite H.
Qed.

Lemma file_and_directory_do_not_convert_witness :
  let path := ["srv"; "www"; "img"] in
  let module := normal (mkParams "directory" path false) in
  let fs1 := snd (ensure_directory path false module fs_sample) in
  let fs2 := snd (ensure_file path false module fs_sample) in
  ensure_file path true module fs1
  = (Failed (mkMsg CreateFile path PathIsDirectory), fs1) ∧
  get_current_state fs2 path = FILE.
Proof.
  intros path module fs1 fs2. split.
  - destruct (file_and_directory_do_not_convert path false true module module
                fs_sample fs1
                (finish {["path" := VPath path]} true (init_diff path DIRECTORY ABSENT))
                eq_refl) as [Hdir _].
    apply Hdir.
    + discriminate.
    + vm_compute. reflexivity.
  - destruct (file_and_directory_do_not_convert path false true module module
                fs_sample fs2
                (finish {["path" := VPath path]} true (init_diff path FILE ABSENT))
                eq_refl) as [_ Hfile].
    apply Hfile.
    + apply ordinary_plain. vm_compute. reflexivity.
    + vm_compute. reflexivity.
Defined.

(** ** [changed] and the diff *)

(** X13. For [ensure_file] and [ensure_absent], in either mode, a returned
    result has [changed] true exactly when its diff carries a ["state"] (on
    both sides).  [ensure_directory] is the one operation for which this
    fails. *)
Theorem changed_iff_diff_has_state
    (path : Path) (nested : bool) (module : AnsibleModule) (fs fs' : FS) (res : Result) :
  ensure_file path nested module fs = (Returned res, fs') ∨
  ensure_absent path module fs = (Returned res, fs') →
  ∃ b diff,
    res !! "changed" = Some (VBool b) ∧
    res !! "diff" = Some (VDiff diff) ∧
    (b = true ↔ is_Some (before diff !! "state")) ∧
    (b = true ↔ is_Some (after diff !! "state")).
Proof.
  assert (Hdiff : ∀ next cur,
            is_Some (before (init_diff path next cur) !! "state") ↔ cur ≠ next).
  { intros next cur. unfold init_diff. case_decide; simpl.
    - rewrite lookup_insert_eq. split; [done|eauto].
    - rewrite lookup_singleton_ne by done. split; [by intros [? ?]|done]. }
  assert (Hdiff' : ∀ next cur,
            is_Some (after (init_diff path next cur) !! "state") ↔ cur ≠ next).
  { intros next cur. unfold init_diff. case_decide; simpl.
    - rewrite lookup_insert_eq. split; [done|eauto].
    - rewrite lookup_singleton_ne by done. split; [by intros [? ?]|done]. }
  assert (Hb : ∀ b, b = true ↔ b ≠ false) by (intros []; split; done).
  intros [E|E].
  - destruct (get_current_state fs path) eqn:Hs.
    + rewrite (ensure_file_on_file _ _ _ _ Hs) in E. injection E as <- <-.
      exists false, (init_diff path FILE FILE).
      rewrite changed_finish, diff_finish, Hdiff, Hdiff'. split_and!; split; done.
    + by rewrite (ensure_file_on_directory _ _ _ _ Hs) in E.
    + exists true, (init_diff path FILE ABSENT). rewrite Hdiff, Hdiff'.
      destruct (check_mode module) eqn:Hc.
      * rewrite (ensure_file_check _ _ _ _ Hc Hs), check_mode_result_finish in E.
        injection E as <- <-. rewrite changed_finish, diff_finish.
        split_and!; split; done.
      * pose proof (ensure_file_normal _ nested _ _ Hc Hs) as H. rewrite E in H.
        destruct H as [-> _]. rewrite changed_finish, diff_finish.
        split_and!; split; done.
  - destruct (decide (get_current_state fs path = ABSENT)) as [Hs|Hs].
    + rewrite (ensure_absent_on_absent _ _ _ Hs) in E. injection E as <- <-.
      exists false, (init_diff path ABSENT ABSENT).
      rewrite changed_finish, diff_finish, Hdiff, Hdiff'. split_and!; split; done.
    + exists true, (init_diff path ABSENT (get_current_state fs path)).
      rewrite Hdiff, Hdiff'.
      assert (res = finish {["path" := VPath path]} true
                      (init_diff path ABSENT (get_current_state fs path))) as ->.
      { unfold ensure_absent in E. rewrite check_mode_result_finish in E.
        destruct (get_current_state fs path); [| |done];
          destruct (check_mode module);
          repeat (destruct (Pathlib.unlink _ _ _) as [[?|?] ?]
                  || destruct (Shutil.rmtree _ _) as [[?|?] ?]);
          by simplify_eq. }
      rewrite changed_finish, diff_finish. split_and!; split; done.
Qed.

Lemma changed_iff_diff_has_state_witness :
  let module := normal (mkParams "absent" ["etc"; "motd"] false) in
  ∃ b diff,
    finish {["path" := VPath ["etc"; "motd"]]} true
      (init_diff ["etc"; "motd"] ABSENT FILE) !! "changed" = Some (VBool b) ∧
    finish {["path" := VPath ["etc"; "motd"]]} true
      (init_diff ["etc"; "motd"] ABSENT FILE) !! "diff" = Some (VDiff diff) ∧
    (b = true ↔ is_Some (before diff !! "state")) ∧
    (b = true ↔ is_Some (after diff !! "state")).
Proof.
  intros module.
  apply (changed_iff_diff_has_state ["etc"; "motd"] false module fs_sample
           (snd (ensure_absent ["etc"; "motd"] module fs_sample))).
  right. vm_compute. reflexivity.
Defined.

(** ** Where [nested] matters *)

(** X14. [nested] is only ever consulted to create missing parents.  When
    the path exists already or its parent is a directory, [ensure_file] and
    [ensure_directory] give the same outcome and leave the same filesystem
    for both values of [nested], in either mode. *)
Theorem nested_irrelevant_with_parent
    (path : Path) (n1 n2 : bool) (module : AnsibleModule) (fs : FS) :
  Pathlib.exists_ fs path = true ∨ Pathlib.is_dir fs (Pathlib.parent path) = true →
  ensure_file path n1 module fs = ensure_file path n2 module fs ∧
  ensure_directory path n1 module fs = ensure_directory path n2 module fs.
Proof.
  intros H. destruct (decide (get_current_state fs path = ABSENT)) as [Hs|Hs].
  - destruct H as [H|Hd]; [apply state_ABSENT in Hs; congruence|].
    destruct (absent_not_root _ _ Hs) as (q & s & ->).
    rewrite parent_snoc in Hd. apply is_dir_true in Hd.
    unfold ensure_file, ensure_directory. rewrite Hs, parent_snoc.
    destruct (check_mode module); [done|].
    rewrite !(mkdir_existing_dir _ _ _ Hd).
    apply state_ABSENT in Hs. destruct (stat_absent_child _ _ _ Hd Hs) as [Hp _].
    destruct (os_mkdir_succeeds _ _ _ Hd Hp) as [fs1 Em].
    unfold Pathlib.mkdir.
    rewrite !(mkdir_rev_first_ok _ _ _ _ fs1) by (by rewrite rev_involutive). done.
  - split.
    + unfold ensure_file. by destruct (get_current_state fs path).
    + by rewrite !ensure_directory_on_existing.
Qed.

Lemma nested_irrelevant_with_parent_witness :
  let path := ["srv"; "www"; "img"] in
  let module := normal (mkParams "file" path false) in
  ensure_file path true module fs_sample = ensure_file path false module fs_sample ∧
  ensure_directory path true module fs_sample
  = ensure_directory path false module fs_sample.
Proof.
  intros path module.
  apply (nested_irrelevant_with_parent path true false module fs_sample).
  right. reflexivity.
Defined.
